(** * Receipt verification on block headers and the node address codec

    A shallow embedding of [go/roothash/api/block/header.go] (package
    [block]) and of the address codec of package [node], together with the
    properties of the storage specification that these functions decide.

    Conventions of the embedding:
    - a Go fixed-size byte array [[n]byte] is a [vec byte n];
    - a Go slice is [option (list A)]: [None] is the nil slice, [Some l] a
      slice holding the elements [l] (the canonical encoding tells the two
      apart, so the model does too);
    - a Go pointer that may be nil is an [option];
    - sized integers are [Z] with the wrap-around of a conversion written
      out where the code converts;
    - a Go [error] result is [option error], [None] being the nil error;
    - a function that can panic returns an [outcome]. *)

From Stdlib Require Import ZArith Lia Ascii String List.
From Stdlib.Strings Require Import Byte.
From stdpp Require Import base option list vector finite gmap strings.

#[global] Instance byte_eq_decision : EqDecision byte := byte_eq_dec.

(** A byte is eight bits: there are finitely many bytes. *)
#[global] Instance of_bits_surj : Surj (=) Byte.of_bits.
Proof. intros b. exists (Byte.to_bits b). apply Byte.of_bits_to_bits. Qed.

#[global] Instance byte_finite : Finite byte := surjective_finite Byte.of_bits.

(** ** Go run-time values *)
Module golang.

(** Values of the interface type [error] that the two packages build:
    [errors.New(msg)] and [fmt.Errorf(format + ": %w", err)] (which wraps
    [err]). *)
Inductive error : Type :=
  | errors_New (msg : string)
  | fmt_Errorf_w (format : string) (wrapped : error).

#[global] Instance error_eq_decision : EqDecision error.
Proof. solve_decision. Defined.

(** The method [Error()]. *)
Fixpoint error_Error (e : error) : string :=
  match e with
  | errors_New msg => msg
  | fmt_Errorf_w format wrapped => format ++ ": " ++ error_Error wrapped
  end.

Definition slice (A : Type) : Type := option (list A).

Definition len {A : Type} (s : slice A) : nat :=
  match s with
  | None => 0
  | Some l => length l
  end.

(** The elements a [for ... range] loop visits. *)
Definition elements {A : Type} (s : slice A) : list A :=
  match s with
  | None => []
  | Some l => l
  end.

(** The result of a call that either returns or panics. *)
Inductive outcome (A : Type) : Type :=
  | Return (a : A)
  | Panic (msg : string).
Arguments Return {A} a.
Arguments Panic {A} msg.

(** A result pair [(value, error)] of which one half is set. *)
Inductive result (A : Type) : Type :=
  | Ok (a : A)
  | Err (e : error).
Arguments Ok {A} a.
Arguments Err {A} e.

(** The loop of [strings.Split(s, sep)] for a separator that is not empty:
    [cur] is the piece being read and [skip] the bytes of a separator that
    has been recognised and is still to be passed over. *)
Fixpoint splitLoop (sep : string) (skip : nat) (cur : string) (s : string) : list string :=
  match s with
  | EmptyString => [cur]
  | String c rest =>
      match skip with
      | S k => splitLoop sep k cur rest
      | O =>
          if String.prefix sep s
          then cur :: splitLoop sep (String.length sep - 1) EmptyString rest
          else splitLoop sep 0 (cur ++ String c EmptyString) rest
      end
  end.

(** With an empty separator [strings.Split] cuts after every character. *)
Fixpoint explode (s : string) : list string :=
  match s with
  | EmptyString => []
  | String c rest => String c EmptyString :: explode rest
  end.

Definition strings_Split (s sep : string) : list string :=
  if bool_decide (sep = EmptyString) then explode s
  else splitLoop sep 0 EmptyString s.

(** How often the character [c] occurs in [s] ([strings.Count] for a
    substring of one character). *)
Fixpoint occurrences (c : ascii) (s : string) : nat :=
  match s with
  | EmptyString => 0
  | String c' rest => (if bool_decide (c' = c) then 1 else 0) + occurrences c rest
  end.

(** [bytes.Equal]: same length and same bytes. *)
Definition bytes_Equal (a b : list byte) : bool := bool_decide (a = b).

End golang.

(** ** Package [common]: the chain namespace *)
Module common.
Import golang.

Definition NamespaceSize : nat := 32.

(** Modelled from the spec: the type [common.Namespace] is declared
    outside the excerpt; the spec describes it as a fixed-size byte
    identifier. *)
Definition Namespace : Type := vec byte NamespaceSize.

(** Modelled from the spec: [Namespace.Equal] is declared outside the
    excerpt; the spec compares namespaces with [==], that is byte for
    byte. *)
Definition Namespace_Equal (n cmp : Namespace) : bool :=
  bytes_Equal (vec_to_list n) (vec_to_list cmp).

End common.

(** ** Package [hash]: digests *)
Module hash.
Import golang.

Definition Size : nat := 32.

(** Modelled from the spec: [hash.Hash] is declared outside the excerpt;
    the spec describes it as a fixed-size digest. *)
Definition Hash : Type := vec byte Size.

(** Modelled from the spec: [Hash.Equal] is declared outside the excerpt;
    digests are compared byte for byte. *)
Definition Hash_Equal (h cmp : Hash) : bool :=
  bytes_Equal (vec_to_list h) (vec_to_list cmp).

End hash.

(** ** Package [signature]: public keys and signatures *)
Module signature.

Definition PublicKeySize : nat := 32.
Definition SignatureSize : nat := 64.

(** Modelled from the spec: [signature.PublicKey] is declared outside the
    excerpt; the spec describes a node identity as a public key. *)
Definition PublicKey : Type := vec byte PublicKeySize.

(** Modelled from the spec: [signature.Signature] is declared outside the
    excerpt: the signer's public key and the raw signature. *)
Record Signature : Type := mkSignature {
  SigPublicKey : PublicKey;
  SigSignature : vec byte SignatureSize
}.

End signature.

(** ** Package [storage/api]: receipts *)
Module storage.
Import golang.

(** Modelled from the spec: [storage.ReceiptBody] is declared outside the
    excerpt; its fields are the ones [header.go] reads and writes
    ([Version], [Namespace], [Round], [Roots]). *)
Record ReceiptBody : Type := mkReceiptBody {
  Version : Z;                      (* uint16 *)
  Namespace : common.Namespace;
  Round : Z;                        (* uint64 *)
  Roots : slice hash.Hash
}.

(** [signature.Signed]: a blob and the signature over it. *)
Record Signed : Type := mkSigned {
  Blob : slice byte;
  Signature : signature.Signature
}.

(** Modelled from the spec: [storage.Receipt] wraps a [Signed]: the
    binary-encoded body and one signature. *)
Record Receipt : Type := mkReceipt { Signed_ : Signed }.

End storage.

(** ** Package [block]: the block header *)
Module block.
Import golang.

Section Header.

(** The message type [RoothashMessage] is declared outside the excerpt and
    no function of the header looks into a message: it stays abstract. *)
Context {RoothashMessage : Type}.

(** [HeaderType] is a [uint8] with three named values. *)
Definition Normal : Z := 0.
Definition RoundFailed : Z := 1.
Definition EpochTransition : Z := 2.

Record Header : Type := mkHeader {
  Version : Z;                                        (* uint16 *)
  Namespace : common.Namespace;
  Round : Z;                                          (* uint64 *)
  Timestamp : Z;                                      (* uint64 *)
  HeaderType : Z;                                     (* uint8 *)
  PreviousHash : hash.Hash;
  IORoot : hash.Hash;
  StateRoot : hash.Hash;
  RoothashMessages : slice (option RoothashMessage);  (* []*RoothashMessage *)
  StorageSignatures : slice signature.Signature
}.

(** The assignment [h.StorageSignatures = sigs] on a header value. *)
Definition set_StorageSignatures (sigs : slice signature.Signature) (h : Header) : Header :=
  {| Version := Version h;
     Namespace := Namespace h;
     Round := Round h;
     Timestamp := Timestamp h;
     HeaderType := HeaderType h;
     PreviousHash := PreviousHash h;
     IORoot := IORoot h;
     StateRoot := StateRoot h;
     RoothashMessages := RoothashMessages h;
     StorageSignatures := sigs |}.

(** *** [RootsForStorageReceipt] *)
Definition RootsForStorageReceipt (h : Header) : slice hash.Hash :=
  Some [IORoot h; StateRoot h].

(** *** [VerifyStorageReceipt] *)

Definition errUnexpectedNamespace : error :=
  errors_New "roothash: receipt has unexpected namespace".
Definition errUnexpectedRound : error :=
  errors_New "roothash: receipt has unexpected round".
Definition errUnexpectedRootCount : error :=
  errors_New "roothash: receipt has unexpected number of roots".
Definition errUnexpectedRoots : error :=
  errors_New "roothash: receipt has unexpected roots".

(** The loop [for idx, v := range roots]: [receipt.Roots[idx]] is an indexed
    read, which panics out of range. *)
Fixpoint range_roots (idx : nat) (roots : list hash.Hash)
    (receiptRoots : list hash.Hash) : outcome (option error) :=
  match roots with
  | [] => Return None
  | v :: rest =>
      match receiptRoots !! idx with
      | None => Panic "runtime error: index out of range"
      | Some r =>
          if negb (bytes_Equal (vec_to_list v) (vec_to_list r))
          then Return (Some errUnexpectedRoots)
          else range_roots (S idx) rest receiptRoots
      end
  end.

Definition VerifyStorageReceipt (h : Header) (receipt : storage.ReceiptBody)
    : outcome (option error) :=
  if negb (common.Namespace_Equal (storage.Namespace receipt) (Namespace h))
  then Return (Some errUnexpectedNamespace)
  else if negb (storage.Round receipt =? Round h)%Z
  then Return (Some errUnexpectedRound)
  else
    let roots := RootsForStorageReceipt h in
    if negb (len (storage.Roots receipt) =? len roots)%nat
    then Return (Some errUnexpectedRootCount)
    else range_roots 0 (elements roots) (elements (storage.Roots receipt)).

(** *** [VerifyStorageReceiptSignatures] *)

(** [storage.ReceiptBody.MarshalCBOR] and [storage.Receipt.Open] are declared
    outside the excerpt.  [Open] checks the receipt's signature over its blob
    and decodes the blob into the destination; the caller below drops the
    destination and keeps the error. *)
Variable ReceiptBody_MarshalCBOR : storage.ReceiptBody -> list byte.
Variable Receipt_Open : storage.Receipt -> option error.

(** The zero value of [signature.Signature]. *)
Definition zeroSignature : signature.Signature :=
  {| signature.SigPublicKey := vreplicate signature.PublicKeySize x00;
     signature.SigSignature := vreplicate signature.SignatureSize x00 |}.

(** The assignments [receipt.Signed.Blob = blob] and
    [receipt.Signed.Signature = sig]. *)
Definition set_Blob (blob : slice byte) (receipt : storage.Receipt) : storage.Receipt :=
  {| storage.Signed_ :=
       {| storage.Blob := blob;
          storage.Signature := storage.Signature (storage.Signed_ receipt) |} |}.

Definition set_Signature (sig : signature.Signature) (receipt : storage.Receipt)
    : storage.Receipt :=
  {| storage.Signed_ :=
       {| storage.Blob := storage.Blob (storage.Signed_ receipt);
          storage.Signature := sig |} |}.

(** The loop [for _, sig := range h.StorageSignatures].  Besides the error it
    returns, in order, the receipts it handed to [Open]. *)
Fixpoint range_signatures (receipt : storage.Receipt) (sigs : list signature.Signature)
    : option error * list storage.Receipt :=
  match sigs with
  | [] => (None, [])
  | sig :: rest =>
      let receipt := set_Signature sig receipt in
      match Receipt_Open receipt with
      | Some err => (Some err, [receipt])
      | None =>
          let '(res, opened) := range_signatures receipt rest in
          (res, receipt :: opened)
      end
  end.

(** The receipt body that [VerifyStorageReceiptSignatures] builds first. *)
Definition receiptBodyOf (h : Header) : storage.ReceiptBody :=
  {| storage.Version := 1;
     storage.Namespace := Namespace h;
     storage.Round := Round h;
     storage.Roots := RootsForStorageReceipt h |}.

Definition VerifyStorageReceiptSignatures (h : Header)
    : option error * list storage.Receipt :=
  let receiptBody := receiptBodyOf h in
  let receipt :=
    {| storage.Signed_ := {| storage.Blob := None; storage.Signature := zeroSignature |} |} in
  let receipt := set_Blob (Some (ReceiptBody_MarshalCBOR receiptBody)) receipt in
  range_signatures receipt (elements (StorageSignatures h)).

(** *** [EncodedHash] and [MostlyEqual]

    [MostlyEqual] copies both headers into local variables, assigns to a
    field of each copy and takes the address of each copy.  The headers
    that pointers refer to therefore live in a heap, and the method is a
    heap transformer. *)

(** [cbor.Marshal] on a header and [hash.Hash.FromBytes] (the digest of a
    byte string) are declared outside the excerpt. *)
Variable cbor_Marshal : Header -> list byte.
Variable hash_FromBytes : list byte -> hash.Hash.

Definition loc : Type := nat.

(** A [*Header]: nil or the address of a header. *)
Definition ptr : Type := option loc.

Definition heap : Type := list Header.

Definition M (A : Type) : Type := heap -> outcome (A * heap).

Definition ret {A : Type} (a : A) : M A := fun s => Return (a, s).

Definition bind {A B : Type} (m : M A) (k : A -> M B) : M B :=
  fun s =>
    match m s with
    | Return (a, s') => k a s'
    | Panic msg => Panic msg
    end.

Notation "x <- m ;; k" := (bind m (fun x => k))
  (at level 100, m at next level, right associativity).
Notation "m ;; k" := (bind m (fun _ => k))
  (at level 100, right associativity).

Definition nilDereference : string :=
  "runtime error: invalid memory address or nil pointer dereference".

(** [*p] *)
Definition deref (p : ptr) : M Header :=
  fun s =>
    match p with
    | None => Panic nilDereference
    | Some l =>
        match s !! l with
        | Some v => Return (v, s)
        | None => Panic nilDereference
        end
    end.

(** A local variable of type [Header] whose address is taken: a fresh cell
    initialised with [v]. *)
Definition local (v : Header) : M ptr :=
  fun s => Return (Some (length s), s ++ [v]).

(** [p.StorageSignatures = sigs] *)
Definition assign_StorageSignatures (p : ptr) (sigs : slice signature.Signature) : M unit :=
  fun s =>
    match p with
    | None => Panic nilDereference
    | Some l =>
        match s !! l with
        | Some v => Return (tt, <[l := set_StorageSignatures sigs v]> s)
        | None => Panic nilDereference
        end
    end.

(** [cbor.Marshal] on a nil pointer: the CBOR null, the single byte 0xf6. *)
Definition cborNil : list byte := [xf6].

(** [hh.From(h)] is [hh.FromBytes(cbor.Marshal(h))].  The method hands its
    receiver on as the pointer it is and reads no field of it: the encoder
    follows the pointer, and a nil receiver is encoded, not dereferenced. *)
Definition EncodedHash (h : ptr) : M hash.Hash :=
  fun s =>
    match h with
    | None => Return (hash_FromBytes cborNil, s)
    | Some l =>
        match s !! l with
        | Some v => Return (hash_FromBytes (cbor_Marshal v), s)
        | None => Panic nilDereference
        end
    end.

Definition MostlyEqual (h cmp : ptr) : M bool :=
  hv <- deref h ;;
  cv <- deref cmp ;;
  a <- local hv ;;
  b <- local cv ;;
  assign_StorageSignatures a (Some []) ;;
  assign_StorageSignatures b (Some []) ;;
  aHash <- EncodedHash a ;;
  bHash <- EncodedHash b ;;
  ret (hash.Hash_Equal aHash bHash).

(** [IsParentOf] *)
Definition IsParentOf (h child : ptr) : M bool :=
  childHash <- EncodedHash child ;;
  hv <- deref h ;;
  ret (hash.Hash_Equal (PreviousHash hv) childHash).

End Header.
Arguments Header : clear implicits.
Arguments heap : clear implicits.

End block.

(** ** The parts of Go's package [net] that package [node] calls

    [net.IP] and [net.IPMask] are byte slices.  The functions below follow
    the standard library's: [IP.To4], [IP.To16], [IP.Equal], [IP.Mask],
    [CIDRMask], [IPNet.Contains] and [ParseCIDR] on literal addresses. *)
Module net.
Import golang.

Definition IPv4len : nat := 4.
Definition IPv6len : nat := 16.

Definition IP : Type := slice byte.
Definition IPMask : Type := slice byte.

Record IPNet : Type := mkIPNet {
  NetIP : IP;
  Mask : IPMask
}.

Record TCPAddr : Type := mkTCPAddr {
  IP_ : IP;
  Port : Z;        (* int *)
  Zone : string
}.

(** The conversion [byte(n)]: the low eight bits. *)
Definition to_byte (n : N) : byte :=
  match Byte.of_N (n mod 256) with
  | Some b => b
  | None => x00
  end.

(** [a & b] on bytes. *)
Definition byte_and (a b : byte) : byte :=
  let '(a0, (a1, (a2, (a3, (a4, (a5, (a6, a7))))))) := Byte.to_bits a in
  let '(b0, (b1, (b2, (b3, (b4, (b5, (b6, b7))))))) := Byte.to_bits b in
  Byte.of_bits
    (a0 && b0, (a1 && b1, (a2 && b2, (a3 && b3,
    (a4 && b4, (a5 && b5, (a6 && b6, a7 && b7))))))).

Definition isZeros (p : list byte) : bool := forallb (fun b => bool_decide (b = x00)) p.

Definition allFF (p : list byte) : bool := forallb (fun b => bool_decide (b = xff)) p.

Definition v4InV6Prefix : list byte :=
  [x00; x00; x00; x00; x00; x00; x00; x00; x00; x00; xff; xff].

(** [IPv4(a, b, c, d)]: the 16-byte form of an IPv4 address. *)
Definition IPv4 (a b c d : byte) : IP := Some (v4InV6Prefix ++ [a; b; c; d]).

Definition To4 (ip : IP) : IP :=
  let p := elements ip in
  if (len ip =? IPv4len)%nat then ip
  else if (len ip =? IPv6len)%nat
          && isZeros (take 10 p)
          && bool_decide (p !! 10%nat = Some xff)
          && bool_decide (p !! 11%nat = Some xff)
  then Some (take 4 (drop 12 p))
  else None.

Definition To16 (ip : IP) : IP :=
  match elements ip with
  | [a; b; c; d] => IPv4 a b c d
  | p => if (length p =? IPv6len)%nat then ip else None
  end.

Definition IP_Equal (ip x : IP) : bool :=
  let p := elements ip in
  let q := elements x in
  if (len ip =? len x)%nat then bytes_Equal p q
  else if (len ip =? IPv4len)%nat && (len x =? IPv6len)%nat
  then bytes_Equal (take 12 q) v4InV6Prefix && bytes_Equal p (drop 12 q)
  else if (len ip =? IPv6len)%nat && (len x =? IPv4len)%nat
  then bytes_Equal (take 12 p) v4InV6Prefix && bytes_Equal (drop 12 p) q
  else false.

(** [CIDRMask(ones, bits)]: the loop that fills byte [i] of the mask, with
    [n] the ones still to place. *)
Fixpoint cidrMaskBytes (l : nat) (n : N) : list byte :=
  match l with
  | O => []
  | S l' =>
      if (8 <=? n)%N then xff :: cidrMaskBytes l' (n - 8)
      else to_byte (255 - N.shiftr 255 n) :: cidrMaskBytes l' 0
  end.

Definition CIDRMask (ones bits : Z) : IPMask :=
  if negb (bits =? 8 * Z.of_nat IPv4len)%Z && negb (bits =? 8 * Z.of_nat IPv6len)%Z
  then None
  else if (ones <? 0)%Z || (ones >? bits)%Z then None
  else Some (cidrMaskBytes (Z.to_nat (bits / 8)) (Z.to_N ones)).

(** The loop [out[i] = ip[i] & mask[i]] over slices of one length. *)
Fixpoint maskBytes (ip mask : list byte) : list byte :=
  match ip, mask with
  | b :: ip', m :: mask' => byte_and b m :: maskBytes ip' mask'
  | _, _ => []
  end.

Definition IP_Mask (ip : IP) (mask : IPMask) : IP :=
  let mask :=
    if (len mask =? IPv6len)%nat && (len ip =? IPv4len)%nat
       && allFF (take 12 (elements mask))
    then Some (drop 12 (elements mask)) else mask in
  let ip :=
    if (len mask =? IPv4len)%nat && (len ip =? IPv6len)%nat
       && bytes_Equal (take 12 (elements ip)) v4InV6Prefix
    then Some (drop 12 (elements ip)) else ip in
  if negb (len ip =? len mask)%nat then None
  else Some (maskBytes (elements ip) (elements mask)).

Definition networkNumberAndMask (n : IPNet) : IP * IPMask :=
  let ip4 := To4 (NetIP n) in
  let ip := match ip4 with Some _ => ip4 | None => NetIP n end in
  if bool_decide (ip4 = None) && negb (len ip =? IPv6len)%nat then (None, None)
  else if (len (Mask n) =? IPv4len)%nat then
    if negb (len ip =? IPv4len)%nat then (None, None) else (ip, Mask n)
  else if (len (Mask n) =? IPv6len)%nat then
    if (len ip =? IPv4len)%nat then (ip, Some (drop 12 (elements (Mask n))))
    else (ip, Mask n)
  else (None, None).

(** The loop of [Contains] over [nn], [m] and [ip]; the three have one
    length when it is entered. *)
Fixpoint containsBytes (nn m ip : list byte) : bool :=
  match nn, m, ip with
  | n0 :: nn', m0 :: m', x0 :: ip' =>
      if bool_decide (byte_and n0 m0 <> byte_and x0 m0) then false
      else containsBytes nn' m' ip'
  | _, _, _ => true
  end.

Definition Contains (n : IPNet) (ip : IP) : bool :=
  let '(nn, m) := networkNumberAndMask n in
  let ip := match To4 ip with Some x => Some x | None => ip end in
  if negb (len ip =? len nn)%nat then false
  else containsBytes (elements nn) (elements m) (elements ip).

(** *** Literal addresses: [dtoi], [xtoi], [parseIPv4], [parseIPv6], [ParseCIDR] *)

(** Bigger than any number these parsers accept. *)
Definition big : Z := 0xFFFFFF.

Definition decimalDigit (c : ascii) : option Z :=
  let n := Z.of_N (N_of_ascii c) in
  if (48 <=? n)%Z && (n <=? 57)%Z then Some (n - 48)%Z else None.

Definition hexDigit (c : ascii) : option Z :=
  let n := Z.of_N (N_of_ascii c) in
  if (48 <=? n)%Z && (n <=? 57)%Z then Some (n - 48)%Z
  else if (97 <=? n)%Z && (n <=? 102)%Z then Some (n - 97 + 10)%Z
  else if (65 <=? n)%Z && (n <=? 70)%Z then Some (n - 65 + 10)%Z
  else None.

(** The digit loop shared by [dtoi] (base 10) and [xtoi] (base 16): [n] is
    the value and [i] the count of digits read so far.  The result is the
    value and the text after the digits; [None] stands for [ok == false]. *)
Fixpoint digits (digit : ascii -> option Z) (base : Z) (n : Z) (i : nat) (s : string)
    : option (Z * string) :=
  match s with
  | String c rest =>
      match digit c with
      | Some d =>
          let n' := (n * base + d)%Z in
          if (n' >=? big)%Z then None else digits digit base n' (S i) rest
      | None => if (i =? 0)%nat then None else Some (n, s)
      end
  | EmptyString => if (i =? 0)%nat then None else Some (n, s)
  end.

Definition dtoi (s : string) : option (Z * string) := digits decimalDigit 10 0 0 s.
Definition xtoi (s : string) : option (Z * string) := digits hexDigit 16 0 0 s.

(** The loop of [parseIPv4]: [k] fields are still to be read, [first] tells
    whether the next one is field 0, [p] holds the fields read. *)
Fixpoint parseIPv4Fields (k : nat) (first : bool) (s : string) (p : list byte)
    : option (list byte) :=
  match k with
  | O => if bool_decide (s = EmptyString) then Some p else None
  | S k' =>
      match s with
      | EmptyString => None
      | String c rest =>
          let s1 :=
            if first then Some s
            else if bool_decide (c = "."%char) then Some rest else None in
          match s1 with
          | None => None
          | Some s1 =>
              match dtoi s1 with
              | None => None
              | Some (n, s2) =>
                  if (n >? 255)%Z then None
                  else parseIPv4Fields k' false s2 (p ++ [to_byte (Z.to_N n)])
              end
          end
      end
  end.

Definition parseIPv4 (s : string) : IP :=
  match parseIPv4Fields IPv4len true s [] with
  | Some [a; b; c; d] => IPv4 a b c d
  | _ => None
  end.

(** The state of the loop of [parseIPv6]. *)
Record ipv6Parse : Type := mkIpv6Parse {
  parsed : list byte;          (* ip[0:i] *)
  ellipsis : option nat;       (* position of the ellipsis, if one was seen *)
  remaining : string
}.

(** The loop [for i < IPv6len] of [parseIPv6]; every turn adds at least two
    bytes, so [fuel] nine turns are more than it can take.  [None] stands
    for the parser returning nil. *)
Fixpoint parseIPv6Loop (fuel : nat) (st : ipv6Parse) : option ipv6Parse :=
  match fuel with
  | O => Some st
  | S fuel' =>
      let i := length (parsed st) in
      if negb (i <? IPv6len)%nat then Some st
      else
        match xtoi (remaining st) with
        | None => None
        | Some (n, s) =>
            if (n >? 0xFFFF)%Z then None
            else
              match s with
              | String "." _ =>
                  (* a trailing dotted IPv4 address *)
                  if bool_decide (ellipsis st = None) && negb (i =? IPv6len - IPv4len)%nat
                  then None
                  else if (IPv6len <? i + IPv4len)%nat then None
                  else
                    match parseIPv4 (remaining st) with
                    | None => None
                    | Some ip4 =>
                        Some {| parsed := parsed st ++ drop 12 ip4;
                                ellipsis := ellipsis st;
                                remaining := EmptyString |}
                    end
              | _ =>
                  let p := parsed st ++ [to_byte (Z.to_N (Z.shiftr n 8)); to_byte (Z.to_N n)] in
                  let i := (i + 2)%nat in
                  match s with
                  | EmptyString =>
                      Some {| parsed := p; ellipsis := ellipsis st; remaining := s |}
                  | String c EmptyString => None
                  | String c (String c' rest as s1) =>
                      if negb (bool_decide (c = ":"%char)) then None
                      else if bool_decide (c' = ":"%char) then
                        match ellipsis st with
                        | Some _ => None
                        | None =>
                            let st' := {| parsed := p; ellipsis := Some i; remaining := rest |} in
                            if bool_decide (rest = EmptyString) then Some st'
                            else parseIPv6Loop fuel' st'
                        end
                      else
                        parseIPv6Loop fuel'
                          {| parsed := p; ellipsis := ellipsis st; remaining := s1 |}
                  end
              end
        end
  end.

Definition parseIPv6 (s : string) : IP :=
  let start :=
    match s with
    | String ":" (String ":" rest) =>
        {| parsed := []; ellipsis := Some 0%nat; remaining := rest |}
    | _ => {| parsed := []; ellipsis := None; remaining := s |}
    end in
  if bool_decide (ellipsis start = Some 0%nat) && bool_decide (remaining start = EmptyString)
  then Some (replicate IPv6len x00)
  else
    match parseIPv6Loop 9 start with
    | None => None
    | Some st =>
        let i := length (parsed st) in
        if negb (bool_decide (remaining st = EmptyString)) then None
        else if (i <? IPv6len)%nat then
          match ellipsis st with
          | None => None
          | Some e =>
              Some (take e (parsed st) ++ replicate (IPv6len - i) x00 ++ drop e (parsed st))
          end
        else
          match ellipsis st with
          | Some _ => None
          | None => Some (parsed st)
          end
    end.

(** [s[:i]] and [s[i+1:]] for [i] the index of the first [c] in [s]. *)
Fixpoint cutAt (c : ascii) (s : string) : option (string * string) :=
  match s with
  | EmptyString => None
  | String c' rest =>
      if bool_decide (c' = c) then Some (EmptyString, rest)
      else
        match cutAt c rest with
        | Some (before, after) => Some (String c' before, after)
        | None => None
        end
  end.

Definition cidrError (s : string) : error := errors_New ("invalid CIDR address: " ++ s).

Definition ParseCIDR (s : string) : result (IP * IPNet) :=
  match cutAt "/" s with
  | None => Err (cidrError s)
  | Some (addr, mask) =>
      let ip4 := parseIPv4 addr in
      let '(iplen, ip) :=
        match ip4 with
        | Some _ => (IPv4len, ip4)
        | None => (IPv6len, parseIPv6 addr)
        end in
      match ip, dtoi mask with
      | Some _, Some (n, EmptyString) =>
          if (n <? 0)%Z || (n >? 8 * Z.of_nat iplen)%Z then Err (cidrError s)
          else
            let m := CIDRMask n (8 * Z.of_nat iplen) in
            Ok (ip, {| NetIP := IP_Mask ip m; Mask := m |})
      | _, _ => Err (cidrError s)
      end
  end.

End net.

(** ** Package [grpc/common]: the wire form of an address *)
Module pbCommon.
Import golang.

(** Modelled from the spec: the generated type [pbCommon.Address] is declared
    outside the excerpt; the spec describes a family tag (4-byte or 16-byte
    form), the raw address bytes and a port wider than 16 bits.  A tag other
    than the two named ones is a value of the enumeration's integer type. *)
Inductive Address_Transport : Type :=
  | Address_TCPv4
  | Address_TCPv6
  | Address_Transport_other (tag : Z).

Record Address : Type := mkAddress {
  Transport : Address_Transport;
  Address_ : slice byte;
  Port : Z          (* uint32 *)
}.

(** The getters of generated code accept a nil message and answer with the
    field's zero value. *)
Definition GetTransport (pb : option Address) : Address_Transport :=
  match pb with
  | Some m => Transport m
  | None => Address_TCPv4
  end.

Definition GetAddress (pb : option Address) : slice byte :=
  match pb with
  | Some m => Address_ m
  | None => None
  end.

Definition GetPort (pb : option Address) : Z :=
  match pb with
  | Some m => Port m
  | None => 0
  end.

(** Modelled from the spec: the generated type [pbCommon.ConsensusAddress]
    is declared outside the excerpt: the binary node identity and the wire
    form of the address, a message that may be nil. *)
Record ConsensusAddress : Type := mkConsensusAddress {
  Id : slice byte;
  CAddress : option Address
}.

Definition GetId (pb : option ConsensusAddress) : slice byte :=
  match pb with
  | Some m => Id m
  | None => None
  end.

Definition GetCAddress (pb : option ConsensusAddress) : option Address :=
  match pb with
  | Some m => CAddress m
  | None => None
  end.

End pbCommon.

(** ** Package [node]: addresses *)
Module node.
Import golang.

Definition ErrInvalidAddress : error := errors_New "node: invalid transport address".

Definition ErrConsensusAddressNoID : error :=
  errors_New "node: consensus address doesn't have ID@ part".

(** [Address] embeds a [net.TCPAddr]. *)
Record Address : Type := mkAddress {
  TCPAddr : net.TCPAddr
}.

Definition IP (a : Address) : net.IP := net.IP_ (TCPAddr a).
Definition Port (a : Address) : Z := net.Port (TCPAddr a).
Definition Zone (a : Address) : string := net.Zone (TCPAddr a).

Definition MaxUint16 : Z := 65535.

(** The conversion [uint32(n)] of an [int]. *)
Definition uint32 (n : Z) : Z := n mod 2 ^ 32.

(** *** [FromIP] *)
Definition FromIP (a : Address) (ip : net.IP) (port : Z) : option error * Address :=
  match net.To4 ip with
  | Some ipv4 =>
      (None, {| TCPAddr := {| net.IP_ := Some ipv4; net.Port := port; net.Zone := "" |} |})
  | None =>
      match net.To16 ip with
      | Some ipv6 =>
          (None, {| TCPAddr := {| net.IP_ := Some ipv6; net.Port := port; net.Zone := "" |} |})
      | None => (Some ErrInvalidAddress, a)
      end
  end.

(** *** [parseProtoAddress] and [toProtoAddress] *)
Definition parseProtoAddress (pb : option pbCommon.Address) : result Address :=
  let ipLen :=
    match pbCommon.GetTransport pb with
    | pbCommon.Address_TCPv4 => Some 4%nat
    | pbCommon.Address_TCPv6 => Some 16%nat
    | pbCommon.Address_Transport_other _ => None
    end in
  match ipLen with
  | None => Err ErrInvalidAddress
  | Some ipLen =>
      let rawIP := pbCommon.GetAddress pb in
      if negb (len rawIP =? ipLen)%nat then Err ErrInvalidAddress
      else
        let rawPort := pbCommon.GetPort pb in
        if (rawPort >? MaxUint16)%Z then Err ErrInvalidAddress
        else
          let inner := {| net.IP_ := rawIP; net.Port := rawPort; net.Zone := "" |} in
          Ok {| TCPAddr := inner |}
  end.

Definition toProtoAddress (addr : Address) : outcome pbCommon.Address :=
  let pick :=
    match net.To4 (IP addr) with
    | Some rawIP => Some (pbCommon.Address_TCPv4, rawIP)
    | None =>
        match net.To16 (IP addr) with
        | Some rawIP => Some (pbCommon.Address_TCPv6, rawIP)
        | None => None
        end
    end in
  match pick with
  | None => Panic "node: address is neither IPv4 nor IPv6"
  | Some (transport, rawIP) =>
      Return {| pbCommon.Transport := transport;
                pbCommon.Address_ := Some ([] ++ rawIP);
                pbCommon.Port := uint32 (Port addr) |}
  end.

(** [ToProtoAddresses]: the loop appends to a nil slice. *)
Fixpoint ToProtoAddresses_range (addrs : list Address) (pbAddrs : slice pbCommon.Address)
    : outcome (slice pbCommon.Address) :=
  match addrs with
  | [] => Return pbAddrs
  | addr :: rest =>
      match toProtoAddress addr with
      | Panic msg => Panic msg
      | Return pb => ToProtoAddresses_range rest (Some (elements pbAddrs ++ [pb]))
      end
  end.

Definition ToProtoAddresses (addrs : slice Address) : outcome (slice pbCommon.Address) :=
  ToProtoAddresses_range (elements addrs) None.

Fixpoint FromProtoAddresses_range (pbAddrs : list (option pbCommon.Address))
    (addrs : list Address) : result (slice Address) :=
  match pbAddrs with
  | [] => Ok (Some addrs)
  | v :: rest =>
      match parseProtoAddress v with
      | Err err => Err err
      | Ok addr => FromProtoAddresses_range rest (addrs ++ [addr])
      end
  end.

Definition FromProtoAddresses (pbAddrs : slice (option pbCommon.Address))
    : result (slice Address) :=
  FromProtoAddresses_range (elements pbAddrs) [].

(** The addresses that [FromIP] builds from a 16-bit port: no zone, the port
    within 16 bits, and the IP held in four bytes, or in sixteen when it is
    no IPv4 address. *)
Definition canonical (a : Address) : Prop :=
  Zone a = EmptyString
  /\ (0 <= Port a <= MaxUint16)%Z
  /\ (len (IP a) = 4 \/ (len (IP a) = 16 /\ net.To4 (IP a) = None)).

(** *** The table of unroutable networks, built by [init] *)
Definition reservedNets : list string :=
  [ "0.0.0.0/8";          (* RFC 1122 *)
    "10.0.0.0/8";         (* RFC 1918: Private-Use *)
    "100.64.0.0/10";      (* RFC 6598: Shared Address Space *)
    "127.0.0.0/8";        (* RFC 1122: Loopback *)
    "169.254.0.0/16";     (* RFC 3927: Link Local *)
    "172.16.0.0/12";      (* RFC 1918: Private-Use *)
    "192.0.0.0/24";       (* RFC 6890 *)
    "192.0.0.0/29";       (* RFC 6333: DS-Lite *)
    "192.0.2.0/24";       (* RFC 5737: Documentation (TEST-NET-1) *)
    "192.168.0.0/16";     (* RFC 1918: Private-Use *)
    "192.18.0.0/15";      (* RFC 2544: Benchmarking *)
    "198.51.100.0/24";    (* RFC 5737: TEST-NET-2 *)
    "203.0.113.0/24";     (* RFC 5737: TEST-NET-3 *)
    "240.0.0.0/4";        (* RFC 1112: Reserved *)
    "255.255.255.255/32"; (* RFC 919: Limited Broadcast *)
    "::1/128";            (* RFC 4291: Loopback Address *)
    "::/128";             (* RFC 4291: Unspecified Address *)
    "100::/64";           (* RFC 6666: Discard-Only Address Block *)
    "2001::/32";          (* RFC 4380: TEREDO *)
    "2001:2::/48";        (* RFC 5180: Benchmarking *)
    "2001:db8::/32";      (* RFC 3849: Documentation *)
    "2001:10::/28";       (* RFC 4843: ORCHID *)
    "2002::/16";          (* RFC 3056: 6to4 *)
    "fc00::/7";           (* RFC 4193: Unique-Local *)
    "fe80::/10"           (* RFC 4291: Linked-Scoped Unicast *)
  ]%string.

(** The loop of [init], from the value [unroutableNetworks] has when the loop
    is entered. *)
Fixpoint init_range (nets : list string) (unroutableNetworks : list net.IPNet)
    : outcome (list net.IPNet) :=
  match nets with
  | [] => Return unroutableNetworks
  | v :: rest =>
      match net.ParseCIDR v with
      | Err err => Panic ("node: failed to parse reserved net: " ++ error_Error err)
      | Ok (_, ipNet) => init_range rest (unroutableNetworks ++ [ipNet])
      end
  end.

Definition init : outcome (list net.IPNet) := init_range reservedNets [].

(** The package variable [unroutableNetworks] once [init] has run. *)
Definition unroutableNetworks : list net.IPNet :=
  match init with
  | Return nets => nets
  | Panic _ => []
  end.

(** *** [IsRoutable] *)
Fixpoint IsRoutable_range (nets : list net.IPNet) (ip : net.IP) : bool :=
  match nets with
  | [] => true
  | v :: rest => if net.Contains v ip then false else IsRoutable_range rest ip
  end.

Definition IsRoutable (a : Address) : bool := IsRoutable_range unroutableNetworks (IP a).

(** *** Text forms: [Address.UnmarshalText] and [ConsensusAddress.UnmarshalText] *)

Record ConsensusAddress : Type := mkConsensusAddress {
  ID : signature.PublicKey;
  Address_ : Address
}.

Section Text.

(** [net.ResolveTCPAddr] belongs to the standard library and may consult a
    name service; [signature.PublicKey.UnmarshalHex] is declared outside the
    excerpt.  The latter is a method on a pointer: it takes the key it is
    called on and returns, with the error, the key it leaves behind. *)
Variable net_ResolveTCPAddr : string -> string -> result net.TCPAddr.
Variable PublicKey_UnmarshalHex :
  signature.PublicKey -> string -> option error * signature.PublicKey.

Definition Address_UnmarshalText (a : Address) (text : string) : option error * Address :=
  match net_ResolveTCPAddr "" text with
  | Err err => (Some err, a)
  | Ok tcpAddr => (None, {| TCPAddr := tcpAddr |})
  end.

Definition errParseID : string := "node: unable to parse consensus address' ID".
Definition errParseTCP : string := "node: unable to parse consensus address' TCP address".

Definition ConsensusAddress_UnmarshalText (ca : ConsensusAddress) (text : string)
    : option error * ConsensusAddress :=
  let spl := strings_Split text "@" in
  match spl with
  | [spl0; spl1] =>
      match PublicKey_UnmarshalHex (ID ca) spl0 with
      | (Some err, id) =>
          (Some (fmt_Errorf_w errParseID err), {| ID := id; Address_ := Address_ ca |})
      | (None, id) =>
          match Address_UnmarshalText (Address_ ca) spl1 with
          | (Some err, addr) =>
              (Some (fmt_Errorf_w errParseTCP err), {| ID := id; Address_ := addr |})
          | (None, addr) => (None, {| ID := id; Address_ := addr |})
          end
      end
  | _ => (Some ErrConsensusAddressNoID, ca)
  end.

End Text.

(** *** [Address.String], [Address.MarshalText], [ConsensusAddress.MarshalText] *)
Section TextOut.

(** [net.TCPAddr.String] belongs to the standard library;
    [signature.PublicKey.String] is declared outside the excerpt. *)
Variable TCPAddr_String : net.TCPAddr -> string.
Variable PublicKey_String : signature.PublicKey -> string.

Definition Address_String (a : Address) : string := TCPAddr_String (TCPAddr a).

Definition Address_MarshalText (a : Address) : result string := Ok (Address_String a).

Definition errMarshalTCP : string :=
  "node: error marshalling consensus address' TCP address".

Definition ConsensusAddress_MarshalText (ca : ConsensusAddress) : result string :=
  let idStr := PublicKey_String (ID ca) in
  match Address_MarshalText (Address_ ca) with
  | Err err => Err (fmt_Errorf_w errMarshalTCP err)
  | Ok addrStr => Ok (idStr ++ "@" ++ addrStr)%string
  end.

End TextOut.

(** *** [ToProtoConsensusAddresses] and [FromProtoConsensusAddresses] *)
Section ProtoConsensus.

(** [signature.PublicKey.MarshalBinary] and [UnmarshalBinary] are declared
    outside the excerpt.  The first returns the bytes and an error, which
    the caller drops; the second is a method on a pointer: it takes the key
    it is called on and returns, with the error, the key it leaves behind. *)
Variable PublicKey_MarshalBinary : signature.PublicKey -> slice byte * option error.
Variable PublicKey_UnmarshalBinary :
  signature.PublicKey -> slice byte -> option error * signature.PublicKey.

Fixpoint ToProtoConsensusAddresses_range (addrs : list ConsensusAddress)
    (pbConsensusAddrs : slice pbCommon.ConsensusAddress)
    : outcome (slice pbCommon.ConsensusAddress) :=
  match addrs with
  | [] => Return pbConsensusAddrs
  | addr :: rest =>
      let id := (PublicKey_MarshalBinary (ID addr)).1 in
      match toProtoAddress (Address_ addr) with
      | Panic msg => Panic msg
      | Return pb =>
          let pbAddr := {| pbCommon.Id := id; pbCommon.CAddress := Some pb |} in
          ToProtoConsensusAddresses_range rest (Some (elements pbConsensusAddrs ++ [pbAddr]))
      end
  end.

Definition ToProtoConsensusAddresses (addrs : slice ConsensusAddress)
    : outcome (slice pbCommon.ConsensusAddress) :=
  ToProtoConsensusAddresses_range (elements addrs) None.

(** The zero value [new(ConsensusAddress)] points to. *)
Definition zeroConsensusAddress : ConsensusAddress :=
  {| ID := vreplicate signature.PublicKeySize x00;
     Address_ :=
       {| TCPAddr := {| net.IP_ := None; net.Port := 0; net.Zone := EmptyString |} |} |}.

Fixpoint FromProtoConsensusAddresses_range (pbAddrs : list (option pbCommon.ConsensusAddress))
    (consensusAddrs : list ConsensusAddress) : result (slice ConsensusAddress) :=
  match pbAddrs with
  | [] => Ok (Some consensusAddrs)
  | v :: rest =>
      let consensusAddr := zeroConsensusAddress in
      match PublicKey_UnmarshalBinary (ID consensusAddr) (pbCommon.GetId v) with
      | (Some err, _) => Err err
      | (None, id) =>
          match parseProtoAddress (pbCommon.GetCAddress v) with
          | Err err => Err err
          | Ok addr =>
              FromProtoConsensusAddresses_range rest
                (consensusAddrs ++ [{| ID := id; Address_ := addr |}])
          end
      end
  end.

Definition FromProtoConsensusAddresses (pbAddrs : slice (option pbCommon.ConsensusAddress))
    : result (slice ConsensusAddress) :=
  FromProtoConsensusAddresses_range (elements pbAddrs) [].

End ProtoConsensus.

End node.

(** ** The replicated storage client *)
Module client.
Import golang.

(** Modelled from the spec: the failures the client surfaces.  The package
    [storage/client] is not part of the excerpt, only its test is; the
    spec's error taxonomy names these four. *)
Inductive failure : Type :=
  | StorageNotAvailable
  | Unavailable
  | VerificationFailed
  | Cancelled.

(** Modelled from the spec: a committee's role; the watcher tells the
    storage role from every other. *)
Inductive Kind : Type :=
  | KindStorage
  | KindOther (role : nat).

#[global] Instance Kind_eq_decision : EqDecision Kind.
Proof. solve_decision. Defined.

(** Modelled from the spec: a committee-change notification of the
    scheduler: [RuntimeID], [Kind] and the ordered member list. *)
Record Committee : Type := mkCommittee {
  RuntimeID : signature.PublicKey;
  CommitteeKind : Kind;
  Members : list signature.PublicKey
}.

(** Modelled from the spec: the client's states, [Uninitialized],
    [Initializing], [Ready] and the parallel [ShutDown]. *)
Inductive phase : Type :=
  | Uninitialized
  | Initializing
  | Ready
  | ShutDown.

(** Modelled from the spec: the client owns the runtime it watches, its
    state and the set of live connections, keyed by node identity. *)
Record Client : Type := mkClient {
  watched : option signature.PublicKey;
  state : phase;
  connections : list signature.PublicKey
}.

(** Modelled from the spec: construction performs no connection. *)
Definition New : Client :=
  {| watched := None; state := Uninitialized; connections := [] |}.

(** Modelled from the spec: [WatchRuntime] begins tracking a runtime's
    committee; the client subscribes and waits for membership. *)
Definition WatchRuntime (c : Client) (runtime : signature.PublicKey) : Client :=
  match state c with
  | ShutDown => c
  | _ => {| watched := Some runtime; state := Initializing; connections := connections c |}
  end.

(** Modelled from the spec: the committee watcher discards every event
    whose kind is not storage or whose runtime is not the watched one. *)
Definition relevant (c : Client) (ev : Committee) : bool :=
  bool_decide (CommitteeKind ev = KindStorage)
  && bool_decide (watched c = Some (RuntimeID ev)).

(** Modelled from the spec: a membership notification.  The first one with
    a member list that is not empty makes the client [Ready] and connects
    to every member; in [Ready] the connection set becomes the new member
    set (members that left are dropped, new ones connected, the others
    kept). *)
Definition onCommittee (c : Client) (ev : Committee) : Client :=
  if negb (relevant c ev) then c
  else
    match state c with
    | Initializing =>
        match Members ev with
        | [] => c
        | members => {| watched := watched c; state := Ready; connections := members |}
        end
    | Ready => {| watched := watched c; state := Ready; connections := Members ev |}
    | Uninitialized | ShutDown => c
    end.

(** Modelled from the spec: cancellation closes every connection. *)
Definition Shutdown (c : Client) : Client :=
  {| watched := watched c; state := ShutDown; connections := [] |}.

(** Modelled from the spec: what one peer does with a read before the
    deadline: it answers, it fails, or it does not respond. *)
Inductive response : Type :=
  | Answer (value : list byte)
  | PeerError
  | NoResponse.

(** Modelled from the spec: a peer is unreachable when it fails or does not
    respond before the deadline. *)
Definition unreachable (r : response) : Prop := r = PeerError \/ r = NoResponse.

(** Modelled from the spec: the read is reissued across the connection set;
    the first answer wins. *)
Fixpoint dispatch (peers : signature.PublicKey -> response)
    (members : list signature.PublicKey) : option (list byte) :=
  match members with
  | [] => None
  | m :: rest =>
      match peers m with
      | Answer value => Some value
      | PeerError | NoResponse => dispatch peers rest
      end
  end.

(** Modelled from the spec: the read path.  An empty connection set fails
    at once with [StorageNotAvailable]; otherwise the query goes to the
    connected members, and when every attempted peer fails or none responds
    before the deadline the read fails with [Unavailable]. *)
Definition SyncGet (c : Client) (peers : signature.PublicKey -> response)
    : list byte + failure :=
  match state c with
  | ShutDown => inr Cancelled
  | _ =>
      match connections c with
      | [] => inr StorageNotAvailable
      | members =>
          match dispatch peers members with
          | Some value => inl value
          | None => inr Unavailable
          end
      end
  end.

End client.

(** ** Stand-ins and sample values for running the functions

    The encodings, the signature check, the digest, the hexadecimal key
    parser and the address resolver are parameters of the model.  The
    stand-ins below are simple instances of them, used to run the functions
    on sample values; no property of the real ones is derived from them. *)
Module testing.
Import golang.

(** The first [n] bytes of [l], padded with zero bytes. *)
Definition bytesToVec (n : nat) (l : list byte) : vec byte n :=
  fun_to_vec (fun i : fin n => default x00 (l !! fin_to_nat i)).

(** The [k] low bytes of [z], most significant first. *)
Fixpoint bigEndian (k : nat) (z : Z) : list byte :=
  match k with
  | O => []
  | S k' => bigEndian k' (z / 256) ++ [net.to_byte (Z.to_N (z mod 256))]
  end.

Definition checksum (l : list byte) : byte :=
  net.to_byte (foldr (fun b acc => (Byte.to_N b + acc)%N) 0%N l).

(** A stand-in for [ReceiptBody.MarshalCBOR]: the fields in order. *)
Definition marshalBody (b : storage.ReceiptBody) : list byte :=
  bigEndian 2 (storage.Version b)
  ++ vec_to_list (storage.Namespace b)
  ++ bigEndian 8 (storage.Round b)
  ++ concat (vec_to_list <$> elements (storage.Roots b)).

Definition errVerifyFailed : error := errors_New "signed: signature verification failed".

(** A stand-in for [Receipt.Open]: a signature opens when each of its bytes
    is the checksum of the blob followed by the signer's key. *)
Definition openReceipt (r : storage.Receipt) : option error :=
  let signed := storage.Signed_ r in
  let sig := storage.Signature signed in
  let expected :=
    checksum (elements (storage.Blob signed) ++ vec_to_list (signature.SigPublicKey sig)) in
  if bool_decide (signature.SigSignature sig = vreplicate signature.SignatureSize expected)
  then None else Some errVerifyFailed.

(** A stand-in for [cbor.Marshal] on headers: the fields in order, a nil
    list told from an empty one. *)
Definition marshalHeader (h : block.Header unit) : list byte :=
  bigEndian 2 (block.Version h)
  ++ bigEndian 8 (block.Round h)
  ++ bigEndian 8 (block.Timestamp h)
  ++ bigEndian 1 (block.HeaderType h)
  ++ vec_to_list (block.Namespace h)
  ++ vec_to_list (block.PreviousHash h)
  ++ vec_to_list (block.IORoot h)
  ++ vec_to_list (block.StateRoot h)
  ++ match block.RoothashMessages h with
     | None => [x00]
     | Some l => [x01; net.to_byte (N.of_nat (length l))]
     end
  ++ match block.StorageSignatures h with
     | None => [x00]
     | Some l =>
         x01 :: concat ((fun sig => vec_to_list (signature.SigPublicKey sig)
                                    ++ vec_to_list (signature.SigSignature sig)) <$> l)
     end.

(** A stand-in for the digest: the first bytes of the encoding. *)
Definition digestPrefix (l : list byte) : hash.Hash := bytesToVec hash.Size l.

(** Sample header values. *)
Definition sampleNamespace : common.Namespace := vreplicate common.NamespaceSize x01.
Definition otherNamespace : common.Namespace := vreplicate common.NamespaceSize x02.
Definition ioRoot : hash.Hash := vreplicate hash.Size xaa.
Definition stateRoot : hash.Hash := vreplicate hash.Size xbb.
Definition otherRoot : hash.Hash := vreplicate hash.Size xcc.

Definition sampleHeader (round : Z) (sigs : slice signature.Signature) : block.Header unit :=
  {| block.Version := 0;
     block.Namespace := sampleNamespace;
     block.Round := round;
     block.Timestamp := 1574000000;
     block.HeaderType := block.Normal;
     block.PreviousHash := vreplicate hash.Size x00;
     block.IORoot := ioRoot;
     block.StateRoot := stateRoot;
     block.RoothashMessages := None;
     block.StorageSignatures := sigs |}.

Definition sampleReceipt (ns : common.Namespace) (round : Z) (roots : slice hash.Hash)
    : storage.ReceiptBody :=
  {| storage.Version := 1;
     storage.Namespace := ns;
     storage.Round := round;
     storage.Roots := roots |}.

(** The signature of signer [key] that [openReceipt] accepts on the receipt
    of [sampleHeader round _], and one it rejects. *)
Definition goodSignature (round : Z) (key : byte) : signature.Signature :=
  let pk := vreplicate signature.PublicKeySize key in
  {| signature.SigPublicKey := pk;
     signature.SigSignature :=
       vreplicate signature.SignatureSize
         (checksum (marshalBody (block.receiptBodyOf (sampleHeader round None))
                    ++ vec_to_list pk)) |}.

(** The receipt under which [sig] is checked for [sampleHeader round _]. *)
Definition sampleSigned (round : Z) (sig : signature.Signature) : storage.Receipt :=
  {| storage.Signed_ :=
       {| storage.Blob := Some (marshalBody (block.receiptBodyOf (sampleHeader round None)));
          storage.Signature := sig |} |}.

Definition badSignature (key : byte) : signature.Signature :=
  {| signature.SigPublicKey := vreplicate signature.PublicKeySize key;
     signature.SigSignature := vreplicate signature.SignatureSize x00 |}.

(** Pairs of hexadecimal digits to bytes; [None] on an odd length or on a
    character that is no digit. *)
Fixpoint hexDecode (s : string) : option (list byte) :=
  match s with
  | EmptyString => Some []
  | String _ EmptyString => None
  | String hi (String lo rest) =>
      match net.hexDigit hi, net.hexDigit lo, hexDecode rest with
      | Some a, Some b, Some bs => Some (net.to_byte (Z.to_N (16 * a + b)) :: bs)
      | _, _, _ => None
      end
  end.

(** Modelled from the spec: [PublicKey.UnmarshalHex] is declared outside the
    excerpt; the identity of a consensus address is written in hexadecimal,
    and a public key has [PublicKeySize] bytes.  A text that is no such key
    leaves the receiver as it was. *)
Definition unmarshalHex (k : signature.PublicKey) (text : string)
    : option error * signature.PublicKey :=
  match hexDecode text with
  | None => (Some (errors_New "encoding/hex: invalid hexadecimal string"), k)
  | Some data =>
      if negb (length data =? signature.PublicKeySize)%nat
      then (Some (errors_New "signature: malformed public key"), k)
      else (None, bytesToVec signature.PublicKeySize data)
  end.

(** A stand-in for [net.ResolveTCPAddr] that knows no host names: it
    resolves [a.b.c.d:port] and nothing else. *)
Definition resolveLiteral (network address : string) : result net.TCPAddr :=
  match net.cutAt ":" address with
  | None => Err (errors_New ("address " ++ address ++ ": missing port in address"))
  | Some (host, port) =>
      match net.parseIPv4 host, net.dtoi port with
      | Some ip, Some (n, EmptyString) =>
          if (n >? 65535)%Z then Err (errors_New ("address " ++ address ++ ": invalid port"))
          else Ok {| net.IP_ := Some ip; net.Port := n; net.Zone := EmptyString |}
      | _, _ => Err (errors_New ("lookup " ++ host ++ ": no such host"))
      end
  end.

Definition deadbeef : string :=
  "deadbeefdeadbeefdeadbeefdeadbeefdeadbeefdeadbeefdeadbeefdeadbeef".

Definition deadbeefKey : signature.PublicKey :=
  bytesToVec signature.PublicKeySize
    (concat (replicate 8 [xde; xad; xbe; xef])).

Definition zeroConsensusAddress : node.ConsensusAddress :=
  {| node.ID := vreplicate signature.PublicKeySize x00;
     node.Address_ :=
       {| node.TCPAddr := {| net.IP_ := None; net.Port := 0; net.Zone := EmptyString |} |} |}.

Definition sampleRuntime : signature.PublicKey := vreplicate signature.PublicKeySize x09.

Definition sampleMembers : list signature.PublicKey :=
  [vreplicate signature.PublicKeySize x01; vreplicate signature.PublicKeySize x02].

Definition sampleAddress (ip : list byte) (port : Z) (zone : string) : node.Address :=
  {| node.TCPAddr := {| net.IP_ := Some ip; net.Port := port; net.Zone := zone |} |}.

(** The hexadecimal digit of a value below sixteen. *)
Definition hexChar (n : N) : ascii :=
  if (n <? 10)%N then ascii_of_N (48 + n) else ascii_of_N (87 + n).

(** A stand-in for [PublicKey.String]: two hexadecimal digits a byte. *)
Fixpoint hexEncode (l : list byte) : string :=
  match l with
  | [] => EmptyString
  | b :: rest =>
      String (hexChar (Byte.to_N b / 16)) (String (hexChar (Byte.to_N b mod 16)) (hexEncode rest))
  end.

Definition publicKeyString (k : signature.PublicKey) : string := hexEncode (vec_to_list k).

(** The decimal digits of [n], for [n] below [10 ^ digits]. *)
Fixpoint decimal (digits : nat) (n : N) (tail : string) : string :=
  match digits with
  | O => tail
  | S digits' =>
      let tail' := String (ascii_of_N (48 + n mod 10)) tail in
      if (n <? 10)%N then tail' else decimal digits' (n / 10) tail'
  end.

Definition itoa (n : N) : string := decimal 20 n EmptyString.

(** A stand-in for [net.TCPAddr.String] on IPv4 addresses without a zone:
    the dotted address, a colon and the port. *)
Definition tcpAddrString (a : net.TCPAddr) : string :=
  match net.To4 (net.IP_ a) with
  | Some [a0; a1; a2; a3] =>
      (itoa (Byte.to_N a0) ++ "." ++ itoa (Byte.to_N a1) ++ "." ++ itoa (Byte.to_N a2)
       ++ "." ++ itoa (Byte.to_N a3) ++ ":" ++ itoa (Z.to_N (net.Port a)))%string
  | _ => "<nil>"
  end.

(** Stand-ins for [PublicKey.MarshalBinary] and [UnmarshalBinary]: the bytes
    of the key, and back when there are [PublicKeySize] of them. *)
Definition marshalBinary (k : signature.PublicKey) : slice byte * option error :=
  (Some (vec_to_list k), None).

Definition unmarshalBinary (k : signature.PublicKey) (data : slice byte)
    : option error * signature.PublicKey :=
  if negb (len data =? signature.PublicKeySize)%nat
  then (Some (errors_New "signature: malformed public key"), k)
  else (None, bytesToVec signature.PublicKeySize (elements data)).


Definition successorOf (p : block.Header unit) : block.Header unit :=
  {| block.Version := block.Version p;
     block.Namespace := block.Namespace p;
     block.Round := block.Round p + 1;
     block.Timestamp := block.Timestamp p + 6;
     block.HeaderType := block.Normal;
     block.PreviousHash := digestPrefix (marshalHeader p);
     block.IORoot := otherRoot;
     block.StateRoot := otherRoot;
     block.RoothashMessages := None;
     block.StorageSignatures := None |}.

Definition deadbeefAddress : node.ConsensusAddress :=
  {| node.ID := deadbeefKey;
     node.Address_ :=
       {| node.TCPAddr := {| net.IP_ := net.IPv4 x7f x00 x00 x01;
                             net.Port := 26656;
                             net.Zone := EmptyString |} |} |}.

End testing.

(** * The comparison of headers the specification describes *)

(** These definitions follow the words of the specification, not the code:
    the properties of [block.MostlyEqual] compare the code with them. *)
Module block_spec.
Import golang block.

Section Header.
Context {RoothashMessage : Type}.
Implicit Types h : Header RoothashMessage.





End Header.

End block_spec.

(** * Properties *)

(** ** Byte-wise comparisons decide equality *)
Module comparisons.
Import golang.

Lemma bytes_Equal_true (a b : list byte) : bytes_Equal a b = true <-> a = b.
Proof. unfold bytes_Equal. apply bool_decide_eq_true. Qed.

Lemma bytes_Equal_false (a b : list byte) : bytes_Equal a b = false <-> a <> b.
Proof. unfold bytes_Equal. apply bool_decide_eq_false. Qed.

Lemma Namespace_Equal_true (n cmp : common.Namespace) :
  common.Namespace_Equal n cmp = true <-> n = cmp.
Proof.
  unfold common.Namespace_Equal. rewrite bytes_Equal_true. split.
  - apply vec_to_list_inj2.
  - now intros ->.
Qed.

Lemma Namespace_Equal_false (n cmp : common.Namespace) :
  common.Namespace_Equal n cmp = false <-> n <> cmp.
Proof.
  rewrite <- Namespace_Equal_true. destruct (common.Namespace_Equal n cmp); split; congruence.
Qed.

Lemma Hash_Equal_true (h cmp : hash.Hash) : hash.Hash_Equal h cmp = true <-> h = cmp.
Proof.
  unfold hash.Hash_Equal. rewrite bytes_Equal_true. split.
  - apply vec_to_list_inj2.
  - now intros ->.
Qed.

Lemma Hash_Equal_false (h cmp : hash.Hash) : hash.Hash_Equal h cmp = false <-> h <> cmp.
Proof.
  rewrite <- Hash_Equal_true. destruct (hash.Hash_Equal h cmp); split; congruence.
Qed.

(** Two lists of digests have the same byte content exactly when they are
    the same list. *)
Lemma hashes_same_bytes (l1 l2 : list hash.Hash) :
  vec_to_list <$> l1 = vec_to_list <$> l2 <-> l1 = l2.
Proof.
  split; [| now intros ->].
  revert l2. induction l1 as [| x l1 IH]; intros [| y l2] E; simpl in E; try discriminate.
  - reflexivity.
  - injection E as Exy E. f_equal; [now apply vec_to_list_inj2 | now apply IH].
Qed.

End comparisons.

(** ** Package [block] *)
Module block_properties.
Import golang block comparisons.

(** Settles the checks of a decided chain: those that pass, then the one
    that fails. *)
Ltac pass_checks := repeat (rewrite bool_decide_eq_false_2 by tauto).
Ltac fail_check := pass_checks; rewrite bool_decide_eq_true_2 by tauto.

Section StorageReceipt.
Context {RoothashMessage : Type}.
Implicit Types (h : Header RoothashMessage) (b : storage.ReceiptBody).

(** The root loop on a receipt with exactly two roots. *)
Lemma range_roots_two (v0 v1 r0 r1 : hash.Hash) :
  range_roots 0 [v0; v1] [r0; r1] =
    if bool_decide (v0 = r0 /\ v1 = r1) then Return None
    else Return (Some errUnexpectedRoots).
Proof.
  simpl.
  destruct (bytes_Equal (vec_to_list v0) (vec_to_list r0)) eqn:E0; simpl.
  - apply Hash_Equal_true in E0. subst r0.
    destruct (bytes_Equal (vec_to_list v1) (vec_to_list r1)) eqn:E1; simpl.
    + apply Hash_Equal_true in E1. subst r1.
      rewrite bool_decide_eq_true_2; [reflexivity | tauto].
    + apply Hash_Equal_false in E1.
      rewrite bool_decide_eq_false_2; [reflexivity | tauto].
  - apply Hash_Equal_false in E0.
    rewrite bool_decide_eq_false_2; [reflexivity | tauto].
Qed.

(** What [VerifyStorageReceipt] returns, check by check. *)
Lemma VerifyStorageReceipt_cases h b :
  VerifyStorageReceipt h b =
    if bool_decide (storage.Namespace b <> Namespace h)
    then Return (Some errUnexpectedNamespace)
    else if bool_decide (storage.Round b <> Round h)
    then Return (Some errUnexpectedRound)
    else if bool_decide (len (storage.Roots b) <> 2)
    then Return (Some errUnexpectedRootCount)
    else if bool_decide (storage.Roots b <> Some [IORoot h; StateRoot h])
    then Return (Some errUnexpectedRoots)
    else Return None.
Proof.
  unfold VerifyStorageReceipt.
  destruct (common.Namespace_Equal _ _) eqn:Ens; cbn [negb].
  2:{ apply Namespace_Equal_false in Ens. now rewrite bool_decide_eq_true_2. }
  apply Namespace_Equal_true in Ens.
  rewrite (bool_decide_eq_false_2 (storage.Namespace b <> Namespace h)) by tauto.
  destruct (Z.eqb_spec (storage.Round b) (Round h)) as [Er | Er]; cbn [negb].
  2:{ now rewrite bool_decide_eq_true_2. }
  rewrite (bool_decide_eq_false_2 (storage.Round b <> Round h)) by tauto.
  change (len (RootsForStorageReceipt h)) with 2.
  destruct (Nat.eqb_spec (len (storage.Roots b)) 2) as [El | El]; cbn [negb].
  2:{ now rewrite bool_decide_eq_true_2. }
  rewrite (bool_decide_eq_false_2 (len (storage.Roots b) <> 2)) by tauto.
  destruct (storage.Roots b) as [[| r0 [| r1 [| r2 rs]]] |]; simpl in El; try discriminate.
  change (elements (Some [r0; r1])) with [r0; r1].
  change (elements (RootsForStorageReceipt h)) with [IORoot h; StateRoot h].
  rewrite range_roots_two.
  destruct (decide (IORoot h = r0 /\ StateRoot h = r1)) as [[-> ->] | N].
  - rewrite bool_decide_eq_true_2 by tauto.
    now rewrite bool_decide_eq_false_2 by tauto.
  - rewrite bool_decide_eq_false_2 by tauto.
    rewrite bool_decide_eq_true_2; [reflexivity |].
    intros E. injection E as -> ->. tauto.
Qed.

(** C1.  [RootsForStorageReceipt h] is the list [[h.IORoot, h.StateRoot]],
    in this order.  [VerifyStorageReceipt h b] returns the nil error exactly
    when the receipt's namespace and round are the header's and its roots
    have the length and, index for index, the byte content of
    [[h.IORoot, h.StateRoot]].  Otherwise the first check that fails names
    the error: an unexpected namespace, an unexpected round, an unexpected
    number of roots, or unexpected roots; the four errors are distinct, and
    the indexed read of the receipt's roots never panics. *)
Theorem VerifyStorageReceipt_spec h b :
  RootsForStorageReceipt h = Some [IORoot h; StateRoot h]
  /\ (VerifyStorageReceipt h b = Return None <->
      storage.Namespace b = Namespace h
      /\ storage.Round b = Round h
      /\ len (storage.Roots b) = length [IORoot h; StateRoot h]
      /\ vec_to_list <$> elements (storage.Roots b)
         = vec_to_list <$> [IORoot h; StateRoot h])
  /\ (storage.Namespace b <> Namespace h ->
      VerifyStorageReceipt h b = Return (Some errUnexpectedNamespace))
  /\ (storage.Namespace b = Namespace h -> storage.Round b <> Round h ->
      VerifyStorageReceipt h b = Return (Some errUnexpectedRound))
  /\ (storage.Namespace b = Namespace h -> storage.Round b = Round h ->
      len (storage.Roots b) <> length [IORoot h; StateRoot h] ->
      VerifyStorageReceipt h b = Return (Some errUnexpectedRootCount))
  /\ (storage.Namespace b = Namespace h -> storage.Round b = Round h ->
      len (storage.Roots b) = length [IORoot h; StateRoot h] ->
      vec_to_list <$> elements (storage.Roots b)
        <> vec_to_list <$> [IORoot h; StateRoot h] ->
      VerifyStorageReceipt h b = Return (Some errUnexpectedRoots))
  /\ NoDup [errUnexpectedNamespace; errUnexpectedRound;
            errUnexpectedRootCount; errUnexpectedRoots]
  /\ (forall msg, VerifyStorageReceipt h b <> Panic msg).
Proof.
  assert (Hroots : storage.Roots b = Some [IORoot h; StateRoot h] <->
            len (storage.Roots b) = 2 /\
            vec_to_list <$> elements (storage.Roots b)
              = vec_to_list <$> [IORoot h; StateRoot h]).
  { rewrite hashes_same_bytes. split.
    - now intros ->.
    - intros [El Ee]. destruct (storage.Roots b) as [l |]; simpl in *.
      + now subst l.
      + discriminate. }
  change (length [IORoot h; StateRoot h]) with 2.
  rewrite VerifyStorageReceipt_cases.
  split; [reflexivity |].
  split; [split |].
  - repeat case_bool_decide; try discriminate. intros _. tauto.
  - intros [E1 [E2 [El Ee]]]. pass_checks. reflexivity.
  - split; [| split; [| split; [| split; [| split]]]].
    + intros N. fail_check. reflexivity.
    + intros E N. fail_check. reflexivity.
    + intros E1 E2 N. fail_check. reflexivity.
    + intros E1 E2 El N. fail_check. reflexivity.
    + unfold errUnexpectedNamespace, errUnexpectedRound, errUnexpectedRootCount,
        errUnexpectedRoots.
      repeat constructor; rewrite ?elem_of_cons, ?elem_of_nil; intros H;
        repeat destruct H as [H | H]; try discriminate; try contradiction.
    + intros msg. repeat case_bool_decide; discriminate.
Qed.

End StorageReceipt.

Section StorageReceiptSignatures.
Context {RoothashMessage : Type}.
Variable ReceiptBody_MarshalCBOR : storage.ReceiptBody -> list byte.
Variable Receipt_Open : storage.Receipt -> option error.
Implicit Types (h : Header RoothashMessage) (sig : signature.Signature).

(** The receipt under which signature [sig] is checked for header [h]: the
    canonical encoding of the body derived from [h], and [sig]. *)
Abbreviation signedReceipt h sig :=
  {| storage.Signed_ :=
       {| storage.Blob :=
            Some (ReceiptBody_MarshalCBOR
                    {| storage.Version := 1;
                       storage.Namespace := Namespace h;
                       storage.Round := Round h;
                       storage.Roots := Some [IORoot h; StateRoot h] |});
          storage.Signature := sig |} |}.

Lemma set_Signature_again sig sig' (r : storage.Receipt) :
  set_Signature sig (set_Signature sig' r) = set_Signature sig r.
Proof. reflexivity. Qed.

(** The loop when every signature opens: no error, every signature checked. *)
Lemma range_signatures_all (r : storage.Receipt) (sigs : list signature.Signature) :
  Forall (fun sig => Receipt_Open (set_Signature sig r) = None) sigs ->
  range_signatures Receipt_Open r sigs = (None, (fun sig => set_Signature sig r) <$> sigs).
Proof.
  revert r. induction sigs as [| sig sigs IH]; intros r Hall; simpl.
  - reflexivity.
  - apply Forall_cons in Hall as [Hsig Hall]. rewrite Hsig.
    rewrite (IH (set_Signature sig r)).
    + reflexivity.
    + eapply Forall_impl; [exact Hall |]. intros s Hs. exact Hs.
Qed.

(** The loop when [sig] is the first signature that does not open: its
    error, and nothing after [sig] checked. *)
Lemma range_signatures_first (r : storage.Receipt)
    (pre post : list signature.Signature) sig (err : error) :
  Forall (fun s => Receipt_Open (set_Signature s r) = None) pre ->
  Receipt_Open (set_Signature sig r) = Some err ->
  range_signatures Receipt_Open r (pre ++ sig :: post)
    = (Some err, (fun s => set_Signature s r) <$> (pre ++ [sig])).
Proof.
  revert r. induction pre as [| s pre IH]; intros r Hall Hsig; simpl.
  - now rewrite Hsig.
  - apply Forall_cons in Hall as [Hs Hall]. rewrite Hs.
    rewrite (IH (set_Signature s r)).
    + reflexivity.
    + eapply Forall_impl; [exact Hall |]. intros s' Hs'. exact Hs'.
    + exact Hsig.
Qed.

(** C2.  [VerifyStorageReceiptSignatures h] hands to [Open], in order, each
    signature of [h.StorageSignatures] together with the canonical encoding
    of the receipt body derived from [h] (version 1, the header's namespace
    and round, the roots [[IORoot, StateRoot]]).  When every signature
    opens it returns the nil error and has checked them all; when [sig] is
    the first that does not open it returns the error of that [Open] and
    has checked nothing after [sig]. *)
Theorem VerifyStorageReceiptSignatures_spec h :
  (Forall (fun sig => Receipt_Open (signedReceipt h sig) = None)
          (elements (StorageSignatures h)) ->
   VerifyStorageReceiptSignatures ReceiptBody_MarshalCBOR Receipt_Open h
     = (None, (fun sig => signedReceipt h sig) <$> elements (StorageSignatures h)))
  /\ (forall pre sig post err,
        elements (StorageSignatures h) = pre ++ sig :: post ->
        Forall (fun s => Receipt_Open (signedReceipt h s) = None) pre ->
        Receipt_Open (signedReceipt h sig) = Some err ->
        VerifyStorageReceiptSignatures ReceiptBody_MarshalCBOR Receipt_Open h
          = (Some err, (fun s => signedReceipt h s) <$> (pre ++ [sig]))).
Proof.
  unfold VerifyStorageReceiptSignatures. split.
  - intros Hall. now rewrite range_signatures_all.
  - intros pre sig post err -> Hall Hsig. now apply range_signatures_first.
Qed.

(** C8.  On a header without storage signatures (a nil or an empty list)
    [VerifyStorageReceiptSignatures] returns the nil error and hands nothing
    to [Open]. *)
Theorem VerifyStorageReceiptSignatures_empty h :
  len (StorageSignatures h) = 0 ->
  VerifyStorageReceiptSignatures ReceiptBody_MarshalCBOR Receipt_Open h = (None, []).
Proof.
  intros Hlen. unfold VerifyStorageReceiptSignatures.
  destruct (StorageSignatures h) as [[| sig sigs] |]; simpl in Hlen; try discriminate;
    reflexivity.
Qed.



End StorageReceiptSignatures.

Section MostlyEqual.
Context {RoothashMessage : Type}.
Variable cbor_Marshal : Header RoothashMessage -> list byte.
Variable hash_FromBytes : list byte -> hash.Hash.
Implicit Types (h : Header RoothashMessage) (s : heap RoothashMessage) (l : loc).

(** A header with its storage signatures cleared, as [MostlyEqual] clears
    them: the empty list [[]signature.Signature{}]. *)
Abbreviation cleared h := (set_StorageSignatures (Some []) h).

(** The digest [EncodedHash] computes for a header value. *)
Abbreviation digest h := (hash_FromBytes (cbor_Marshal h)).

(** Reading and writing the two cells that follow a heap [s]. *)
Lemma cells_two s (a b : Header RoothashMessage) : (s ++ [a]) ++ [b] = s ++ [a; b].
Proof. now rewrite <- app_assoc. Qed.

Lemma length_snoc s (a : Header RoothashMessage) : length (s ++ [a]) = S (length s).
Proof. rewrite length_app. simpl. lia. Qed.

Lemma lookup_first_cell s (a b : Header RoothashMessage) :
  (s ++ [a; b]) !! length s = Some a.
Proof. now apply list_lookup_middle. Qed.

Lemma lookup_second_cell s (a b : Header RoothashMessage) :
  (s ++ [a; b]) !! S (length s) = Some b.
Proof.
  rewrite lookup_app_r by lia.
  now replace (S (length s) - length s) with 1 by lia.
Qed.

Lemma insert_first_cell s (a b c : Header RoothashMessage) :
  <[length s := c]> (s ++ [a; b]) = s ++ [c; b].
Proof.
  rewrite insert_app_r_alt by lia. now rewrite Nat.sub_diag.
Qed.

Lemma insert_second_cell s (a b c : Header RoothashMessage) :
  <[S (length s) := c]> (s ++ [a; b]) = s ++ [a; c].
Proof.
  rewrite insert_app_r_alt by lia.
  now replace (S (length s) - length s) with 1 by lia.
Qed.

(** The run of [MostlyEqual] on two allocated headers: it returns the
    comparison of the digests of the cleared copies, and leaves the heap
    extended by the two copies. *)
Lemma MostlyEqual_run s lh lc h1 h2 :
  s !! lh = Some h1 ->
  s !! lc = Some h2 ->
  MostlyEqual cbor_Marshal hash_FromBytes (Some lh) (Some lc) s
    = Return (hash.Hash_Equal (digest (cleared h1)) (digest (cleared h2)),
              s ++ [cleared h1; cleared h2]).
Proof.
  intros H1 H2.
  unfold MostlyEqual, EncodedHash, bind, deref, local, assign_StorageSignatures, ret.
  rewrite H1, H2.
  rewrite cells_two, length_snoc.
  rewrite lookup_first_cell, insert_first_cell.
  rewrite lookup_second_cell, insert_second_cell.
  rewrite lookup_first_cell, lookup_second_cell.
  reflexivity.
Qed.



(** C10.  [MostlyEqual] writes to its two local copies only: on two
    allocated headers (which may be one and the same) it returns, and the
    heap it leaves is the heap it found followed by the two copies, so that
    both arguments, and every other header, hold the value they held
    before, [StorageSignatures] included. *)
Theorem MostlyEqual_frame s lh lc h1 h2 :
  s !! lh = Some h1 ->
  s !! lc = Some h2 ->
  exists (b : bool) s',
    MostlyEqual cbor_Marshal hash_FromBytes (Some lh) (Some lc) s = Return (b, s')
    /\ s' !! lh = Some h1
    /\ s' !! lc = Some h2
    /\ StorageSignatures <$> (s' !! lh) = Some (StorageSignatures h1)
    /\ StorageSignatures <$> (s' !! lc) = Some (StorageSignatures h2)
    /\ (forall l h, s !! l = Some h -> s' !! l = Some h)
    /\ take (length s) s' = s.
Proof.
  intros H1 H2.
  exists (hash.Hash_Equal (digest (cleared h1)) (digest (cleared h2))),
         (s ++ [cleared h1; cleared h2]).
  split; [apply MostlyEqual_run; assumption |].
  unfold heap in *.
  assert (Hkeep : forall l h, s !! l = Some h -> (s ++ [cleared h1; cleared h2]) !! l = Some h).
  { intros l h Hl. now apply lookup_app_l_Some. }
  repeat split.
  - now apply Hkeep.
  - now apply Hkeep.
  - pose proof (Hkeep _ _ H1) as E. now rewrite E.
  - pose proof (Hkeep _ _ H2) as E. now rewrite E.
  - exact Hkeep.
  - now rewrite take_app_length.
Qed.

End MostlyEqual.

End block_properties.

(** ** Package [node] *)
Module node_properties.
Import golang node.

(** The networks [init] parses out of the reserved-block list. *)
Example unroutableNetworks_table :
  unroutableNetworks = [
    (* 0.0.0.0/8 *)
    {| net.NetIP := Some [x00; x00; x00; x00];
       net.Mask := Some [xff; x00; x00; x00] |};
    (* 10.0.0.0/8 *)
    {| net.NetIP := Some [x0a; x00; x00; x00];
       net.Mask := Some [xff; x00; x00; x00] |};
    (* 100.64.0.0/10 *)
    {| net.NetIP := Some [x64; x40; x00; x00];
       net.Mask := Some [xff; xc0; x00; x00] |};
    (* 127.0.0.0/8 *)
    {| net.NetIP := Some [x7f; x00; x00; x00];
       net.Mask := Some [xff; x00; x00; x00] |};
    (* 169.254.0.0/16 *)
    {| net.NetIP := Some [xa9; xfe; x00; x00];
       net.Mask := Some [xff; xff; x00; x00] |};
    (* 172.16.0.0/12 *)
    {| net.NetIP := Some [xac; x10; x00; x00];
       net.Mask := Some [xff; xf0; x00; x00] |};
    (* 192.0.0.0/24 *)
    {| net.NetIP := Some [xc0; x00; x00; x00];
       net.Mask := Some [xff; xff; xff; x00] |};
    (* 192.0.0.0/29 *)
    {| net.NetIP := Some [xc0; x00; x00; x00];
       net.Mask := Some [xff; xff; xff; xf8] |};
    (* 192.0.2.0/24 *)
    {| net.NetIP := Some [xc0; x00; x02; x00];
       net.Mask := Some [xff; xff; xff; x00] |};
    (* 192.168.0.0/16 *)
    {| net.NetIP := Some [xc0; xa8; x00; x00];
       net.Mask := Some [xff; xff; x00; x00] |};
    (* 192.18.0.0/15 *)
    {| net.NetIP := Some [xc0; x12; x00; x00];
       net.Mask := Some [xff; xfe; x00; x00] |};
    (* 198.51.100.0/24 *)
    {| net.NetIP := Some [xc6; x33; x64; x00];
       net.Mask := Some [xff; xff; xff; x00] |};
    (* 203.0.113.0/24 *)
    {| net.NetIP := Some [xcb; x00; x71; x00];
       net.Mask := Some [xff; xff; xff; x00] |};
    (* 240.0.0.0/4 *)
    {| net.NetIP := Some [xf0; x00; x00; x00];
       net.Mask := Some [xf0; x00; x00; x00] |};
    (* 255.255.255.255/32 *)
    {| net.NetIP := Some [xff; xff; xff; xff];
       net.Mask := Some [xff; xff; xff; xff] |};
    (* ::1/128 *)
    {| net.NetIP := Some [x00; x00; x00; x00; x00; x00; x00; x00; x00; x00; x00; x00; x00; x00; x00; x01];
       net.Mask := Some [xff; xff; xff; xff; xff; xff; xff; xff; xff; xff; xff; xff; xff; xff; xff; xff] |};
    (* ::/128 *)
    {| net.NetIP := Some [x00; x00; x00; x00; x00; x00; x00; x00; x00; x00; x00; x00; x00; x00; x00; x00];
       net.Mask := Some [xff; xff; xff; xff; xff; xff; xff; xff; xff; xff; xff; xff; xff; xff; xff; xff] |};
    (* 100::/64 *)
    {| net.NetIP := Some [x01; x00; x00; x00; x00; x00; x00; x00; x00; x00; x00; x00; x00; x00; x00; x00];
       net.Mask := Some [xff; xff; xff; xff; xff; xff; xff; xff; x00; x00; x00; x00; x00; x00; x00; x00] |};
    (* 2001::/32 *)
    {| net.NetIP := Some [x20; x01; x00; x00; x00; x00; x00; x00; x00; x00; x00; x00; x00; x00; x00; x00];
       net.Mask := Some [xff; xff; xff; xff; x00; x00; x00; x00; x00; x00; x00; x00; x00; x00; x00; x00] |};
    (* 2001:2::/48 *)
    {| net.NetIP := Some [x20; x01; x00; x02; x00; x00; x00; x00; x00; x00; x00; x00; x00; x00; x00; x00];
       net.Mask := Some [xff; xff; xff; xff; xff; xff; x00; x00; x00; x00; x00; x00; x00; x00; x00; x00] |};
    (* 2001:db8::/32 *)
    {| net.NetIP := Some [x20; x01; x0d; xb8; x00; x00; x00; x00; x00; x00; x00; x00; x00; x00; x00; x00];
       net.Mask := Some [xff; xff; xff; xff; x00; x00; x00; x00; x00; x00; x00; x00; x00; x00; x00; x00] |};
    (* 2001:10::/28 *)
    {| net.NetIP := Some [x20; x01; x00; x10; x00; x00; x00; x00; x00; x00; x00; x00; x00; x00; x00; x00];
       net.Mask := Some [xff; xff; xff; xf0; x00; x00; x00; x00; x00; x00; x00; x00; x00; x00; x00; x00] |};
    (* 2002::/16 *)
    {| net.NetIP := Some [x20; x02; x00; x00; x00; x00; x00; x00; x00; x00; x00; x00; x00; x00; x00; x00];
       net.Mask := Some [xff; xff; x00; x00; x00; x00; x00; x00; x00; x00; x00; x00; x00; x00; x00; x00] |};
    (* fc00::/7 *)
    {| net.NetIP := Some [xfc; x00; x00; x00; x00; x00; x00; x00; x00; x00; x00; x00; x00; x00; x00; x00];
       net.Mask := Some [xfe; x00; x00; x00; x00; x00; x00; x00; x00; x00; x00; x00; x00; x00; x00; x00] |};
    (* fe80::/10 *)
    {| net.NetIP := Some [xfe; x80; x00; x00; x00; x00; x00; x00; x00; x00; x00; x00; x00; x00; x00; x00];
       net.Mask := Some [xff; xc0; x00; x00; x00; x00; x00; x00; x00; x00; x00; x00; x00; x00; x00; x00] |}
  ].
Proof. vm_compute. reflexivity. Qed.

(** The loop of [IsRoutable] answers [false] exactly when a network of the
    list contains the address. *)
Lemma IsRoutable_range_false (nets : list net.IPNet) (ip : net.IP) :
  IsRoutable_range nets ip = false <->
  exists n, n ∈ nets /\ net.Contains n ip = true.
Proof.
  induction nets as [| v nets IH]; simpl.
  - split; [discriminate |]. intros [n [Hn _]]. now apply elem_of_nil in Hn.
  - destruct (net.Contains v ip) eqn:Ev.
    + split; [| reflexivity]. intros _. exists v. split; [apply list_elem_of_here | exact Ev].
    + rewrite IH. split.
      * intros [n [Hn Hc]]. exists n. split; [now apply list_elem_of_further | exact Hc].
      * intros [n [Hn Hc]]. apply elem_of_cons in Hn as [-> | Hn].
        -- congruence.
        -- exists n. now split.
Qed.

(** [init] parses the reserved-block list without a panic into a table of
    25 networks, the value of [unroutableNetworks]; [IsRoutable] answers
    [false] exactly when one network of that table, as [init] built it,
    contains the address's IP.  In particular 10.0.0.5 and 192.168.1.1 are unroutable and 8.8.8.8
    is routable, in the 4-byte and in the 16-byte form of the address and
    whatever the port and zone. *)
Theorem IsRoutable_spec :
  init = Return unroutableNetworks
  /\ length unroutableNetworks = length reservedNets
  /\ (forall a : Address,
        IsRoutable a = false <->
        exists n, n ∈ unroutableNetworks /\ net.Contains n (IP a) = true)
  /\ (forall port zone,
        IsRoutable {| TCPAddr := {| net.IP_ := Some [x0a; x00; x00; x05];
                                    net.Port := port; net.Zone := zone |} |} = false
        /\ IsRoutable {| TCPAddr := {| net.IP_ := net.IPv4 x0a x00 x00 x05;
                                       net.Port := port; net.Zone := zone |} |} = false
        /\ IsRoutable {| TCPAddr := {| net.IP_ := Some [xc0; xa8; x01; x01];
                                       net.Port := port; net.Zone := zone |} |} = false
        /\ IsRoutable {| TCPAddr := {| net.IP_ := net.IPv4 xc0 xa8 x01 x01;
                                       net.Port := port; net.Zone := zone |} |} = false
        /\ IsRoutable {| TCPAddr := {| net.IP_ := Some [x08; x08; x08; x08];
                                       net.Port := port; net.Zone := zone |} |} = true
        /\ IsRoutable {| TCPAddr := {| net.IP_ := net.IPv4 x08 x08 x08 x08;
                                       net.Port := port; net.Zone := zone |} |} = true).
Proof.
  split; [| split; [| split]].
  - vm_compute. reflexivity.
  - vm_compute. reflexivity.
  - intros a. apply IsRoutable_range_false.
  - intros port zone. unfold IsRoutable, IP. cbn [TCPAddr net.IP_].
    repeat split; vm_compute; reflexivity.
Qed.

(** *** The binary form of an address *)

(** [To4] answers with four bytes: the address itself when it is held in
    four bytes, the last four when it is an IPv4 address held in sixteen. *)
Lemma To4_Some (ip : net.IP) (x : list byte) :
  net.To4 ip = Some x ->
  length x = 4
  /\ (ip = Some x \/ (len ip = 16 /\ elements ip = net.v4InV6Prefix ++ x)).
Proof.
  unfold net.To4. destruct ip as [p |]; simpl.
  2:{ discriminate. }
  destruct (Nat.eqb_spec (length p) net.IPv4len) as [E4 | N4].
  - intros [= <-]. split; [exact E4 | now left].
  - destruct (Nat.eqb_spec (length p) net.IPv6len) as [E16 | N16]; simpl; [| discriminate].
    do 17 (destruct p as [| ? p]; simpl in E16; try discriminate).
    simpl.
    repeat (case_bool_decide; simpl; try discriminate).
    intros [= <-]. subst. split; [reflexivity |]. right. split; [reflexivity |].
    repeat match goal with H : Some _ = Some _ |- _ => injection H as -> end.
    reflexivity.
  Qed.

Lemma To4_None_To16 (ip : net.IP) (x : list byte) :
  net.To4 ip = None -> net.To16 ip = Some x -> ip = Some x /\ length x = 16.
Proof.
  unfold net.To4, net.To16, net.IPv4. destruct ip as [p |]; simpl.
  2:{ discriminate. }
  destruct (Nat.eqb_spec (length p) net.IPv4len) as [E4 | N4]; [discriminate |].
  intros _.
  destruct p as [| a [| b [| c [| d [| e p]]]]]; simpl; try discriminate.
  - exfalso. apply N4. reflexivity.
  - destruct (Nat.eqb_spec (length p) 11) as [E | N]; [| discriminate].
    intros [= <-]. split; [reflexivity |]. simpl. now rewrite E.
Qed.

Lemma uint32_small (n : Z) : (0 <= n <= MaxUint16)%Z -> uint32 n = n.
Proof.
  unfold uint32, MaxUint16. intros H. apply Z.mod_small. lia.
Qed.

(** C6, as the code has it.  For every address whose IP is a valid IPv4 or
    IPv6 address and whose port lies within 16 bits, [toProtoAddress]
    returns a message tagged with the 4-byte family when the IP is an IPv4
    address (held in four or in sixteen bytes) and with the 16-byte family
    otherwise, and [parseProtoAddress] decodes that message to an address
    with the same port, an empty zone and an IP equal to the original in the
    sense of [net.IP.Equal]; the decoded address is the original itself when
    the original has no zone and its IP is held in four bytes or is no IPv4
    address.  Decoding fails with [ErrInvalidAddress] when the length of the
    raw address does not match the tag, when the port exceeds 16 bits, and
    on a tag of neither family. *)
Theorem proto_roundtrip :
  (forall a : Address,
     net.To4 (IP a) <> None \/ net.To16 (IP a) <> None ->
     (0 <= Port a <= MaxUint16)%Z ->
     exists pb a',
       toProtoAddress a = Return pb
       /\ parseProtoAddress (Some pb) = Ok a'
       /\ (net.To4 (IP a) <> None ->
           pbCommon.Transport pb = pbCommon.Address_TCPv4 /\ len (pbCommon.Address_ pb) = 4)
       /\ (net.To4 (IP a) = None ->
           pbCommon.Transport pb = pbCommon.Address_TCPv6 /\ len (pbCommon.Address_ pb) = 16)
       /\ Port a' = Port a
       /\ Zone a' = EmptyString
       /\ net.IP_Equal (IP a') (IP a) = true
       /\ (Zone a = EmptyString -> len (IP a) = 4 \/ net.To4 (IP a) = None -> a' = a))
  /\ (forall pb : option pbCommon.Address,
        (pbCommon.GetTransport pb = pbCommon.Address_TCPv4 ->
         len (pbCommon.GetAddress pb) <> 4 -> parseProtoAddress pb = Err ErrInvalidAddress)
        /\ (pbCommon.GetTransport pb = pbCommon.Address_TCPv6 ->
            len (pbCommon.GetAddress pb) <> 16 -> parseProtoAddress pb = Err ErrInvalidAddress)
        /\ ((pbCommon.GetPort pb > MaxUint16)%Z -> parseProtoAddress pb = Err ErrInvalidAddress)
        /\ (forall tag, pbCommon.GetTransport pb = pbCommon.Address_Transport_other tag ->
            parseProtoAddress pb = Err ErrInvalidAddress)).
Proof.
  split.
  - intros [[ip port zone]] Hvalid Hport. unfold IP, Port, Zone in *. simpl in *.
    unfold toProtoAddress, IP, Port. simpl.
    destruct (net.To4 ip) as [x |] eqn:E4.
    + destruct (To4_Some _ _ E4) as [Hlen Hx].
      eexists _, _. split; [reflexivity |].
      unfold parseProtoAddress. simpl. rewrite Hlen. simpl.
      rewrite uint32_small by exact Hport.
      destruct (Z.gtb_spec port MaxUint16) as [Hgt | _]; [lia |].
      split; [reflexivity |].
      split; [intros _; split; [reflexivity | first [exact Hlen | reflexivity]] |].
      split; [discriminate |].
      split; [reflexivity |]. split; [reflexivity |].
      split.
      * unfold net.IP_Equal, IP. simpl.
        destruct Hx as [-> | [Hl He]].
        -- simpl. rewrite Nat.eqb_refl. now apply comparisons.bytes_Equal_true.
        -- rewrite Hlen, Hl, He. simpl.
           apply comparisons.bytes_Equal_true. reflexivity.
      * intros Hz Hform. subst zone.
        destruct Hx as [-> | [Hl He]]; [reflexivity |].
        destruct Hform as [Hl4 | HN]; [rewrite Hl in Hl4; discriminate | discriminate].
    + destruct (net.To16 ip) as [x |] eqn:E16.
      2:{ destruct Hvalid as [H | H]; now contradiction H. }
      destruct (To4_None_To16 _ _ E4 E16) as [-> Hlen].
      eexists _, _. split; [reflexivity |].
      unfold parseProtoAddress. simpl. rewrite Hlen. simpl.
      rewrite uint32_small by exact Hport.
      destruct (Z.gtb_spec port MaxUint16) as [Hgt | _]; [lia |].
      split; [reflexivity |].
      split; [intros N; now contradiction N |].
      split; [intros _; split; [reflexivity | first [exact Hlen | reflexivity]] |].
      split; [reflexivity |]. split; [reflexivity |].
      split.
      * unfold net.IP_Equal, IP. simpl. rewrite Nat.eqb_refl.
        now apply comparisons.bytes_Equal_true.
      * intros Hz _. now subst zone.
  - intros pb. unfold parseProtoAddress.
    repeat split.
    + intros -> N. apply Nat.eqb_neq in N. now rewrite N.
    + intros -> N. apply Nat.eqb_neq in N. now rewrite N.
    + intros Hgt. apply Z.gtb_gt in Hgt. rewrite Hgt.
      destruct (pbCommon.GetTransport pb); [| | reflexivity];
        destruct (_ =? _)%nat; reflexivity.
    + intros tag ->. reflexivity.
Qed.

(** *** The text form of a consensus address *)

Lemma prefix_at (c : ascii) (rest : string) :
  String.prefix "@" (String c rest) = bool_decide (c = "@"%char).
Proof.
  cbn [String.prefix]. destruct (ascii_dec "@" c) as [<- | N].
  - rewrite bool_decide_eq_true_2 by reflexivity. now destruct rest.
  - rewrite bool_decide_eq_false_2; [reflexivity | congruence].
Qed.

(** [strings.Split(s, "@")] has one piece more than [s] has [@]. *)
Lemma splitLoop_at_length (s cur : string) :
  length (splitLoop "@" 0 cur s) = S (occurrences "@" s).
Proof.
  revert cur. induction s as [| c rest IH]; intros cur.
  - reflexivity.
  - cbn [splitLoop occurrences]. rewrite prefix_at.
    case_bool_decide; cbn [length String.length Nat.sub].
    + now rewrite IH.
    + now rewrite IH.
Qed.

Lemma append_cons (c : ascii) (s t : string) :
  (String c s ++ t)%string = String c (s ++ t).
Proof. reflexivity. Qed.

Lemma append_nil (t : string) : (EmptyString ++ t)%string = t.
Proof. reflexivity. Qed.

Lemma append_String (cur : string) (c : ascii) (s : string) :
  ((cur ++ String c EmptyString) ++ s)%string = (cur ++ String c s)%string.
Proof.
  induction cur as [| d cur IH]; [reflexivity |].
  rewrite !append_cons. now f_equal.
Qed.

Lemma append_empty_r (s : string) : (s ++ EmptyString)%string = s.
Proof.
  induction s as [| c s IH]; [reflexivity |].
  rewrite append_cons. now f_equal.
Qed.

(** A text without [@] is one piece. *)
Lemma splitLoop_at_none (s cur : string) :
  occurrences "@" s = 0 ->
  splitLoop "@" 0 cur s = [(cur ++ s)%string].
Proof.
  revert cur. induction s as [| c rest IH]; intros cur H.
  - cbn [splitLoop]. now rewrite append_empty_r.
  - cbn [splitLoop occurrences] in *. rewrite prefix_at.
    case_bool_decide; [discriminate |].
    rewrite IH by exact H. now rewrite append_String.
Qed.

(** A text with one [@] is the piece before it and the piece after it. *)
Lemma splitLoop_at_one (a b cur : string) :
  occurrences "@" a = 0 ->
  occurrences "@" b = 0 ->
  splitLoop "@" 0 cur (a ++ String "@" b) = [(cur ++ a)%string; b].
Proof.
  revert cur. induction a as [| c rest IH]; intros cur Ha Hb.
  - rewrite append_nil. cbn [splitLoop]. rewrite prefix_at.
    rewrite bool_decide_eq_true_2 by reflexivity.
    cbn [String.length Nat.sub]. rewrite splitLoop_at_none by exact Hb.
    now rewrite append_empty_r.
  - cbn [occurrences] in Ha. rewrite append_cons. cbn [splitLoop]. rewrite prefix_at.
    case_bool_decide; [discriminate |].
    rewrite IH by assumption. now rewrite append_String.
Qed.

(** A text with exactly one [@] has that shape. *)
Lemma occurrences_one (s : string) :
  occurrences "@" s = 1 ->
  exists a b, s = (a ++ String "@" b)%string
              /\ occurrences "@" a = 0 /\ occurrences "@" b = 0.
Proof.
  induction s as [| c rest IH]; cbn [occurrences]; [discriminate |].
  case_bool_decide as Hc.
  - intros H. exists EmptyString, rest. subst c. repeat split. simpl in H. lia.
  - intros H. destruct (IH H) as (a & b & -> & Ha & Hb).
    exists (String c a), b. repeat split; [| exact Hb].
    cbn [occurrences]. now rewrite bool_decide_eq_false_2.
Qed.

Section ConsensusAddressText.
Variable net_ResolveTCPAddr : string -> string -> result net.TCPAddr.
Variable PublicKey_UnmarshalHex :
  signature.PublicKey -> string -> option error * signature.PublicKey.

(** C5, as the code has it.  [ConsensusAddress.UnmarshalText] fails with
    [ErrConsensusAddressNoID] exactly when the text does not hold exactly
    one [@]: when it holds none, and also when it holds two or more.  A
    text with exactly one [@] is [idText @ addrText]; on it the method
    returns the error of parsing [idText] as a hexadecimal identity, wrapped,
    else the error of resolving [addrText], wrapped, else the nil error with
    the parsed identity and address stored. *)
Theorem ConsensusAddress_UnmarshalText_spec (ca : ConsensusAddress) :
  (forall text,
     (ConsensusAddress_UnmarshalText net_ResolveTCPAddr PublicKey_UnmarshalHex ca text).1
       = Some ErrConsensusAddressNoID
     <-> occurrences "@" text <> 1)
  /\ (forall text,
        occurrences "@" text = 0 ->
        ConsensusAddress_UnmarshalText net_ResolveTCPAddr PublicKey_UnmarshalHex ca text
          = (Some ErrConsensusAddressNoID, ca))
  /\ (forall text,
        occurrences "@" text = 1 ->
        exists idText addrText,
          text = (idText ++ String "@" addrText)%string
          /\ occurrences "@" idText = 0 /\ occurrences "@" addrText = 0)
  /\ (forall idText addrText,
        occurrences "@" idText = 0 ->
        occurrences "@" addrText = 0 ->
        ConsensusAddress_UnmarshalText net_ResolveTCPAddr PublicKey_UnmarshalHex ca
          (idText ++ String "@" addrText)
        = match PublicKey_UnmarshalHex (ID ca) idText with
          | (Some err, id) =>
              (Some (fmt_Errorf_w errParseID err), {| ID := id; Address_ := Address_ ca |})
          | (None, id) =>
              match net_ResolveTCPAddr EmptyString addrText with
              | Err err =>
                  (Some (fmt_Errorf_w errParseTCP err),
                   {| ID := id; Address_ := Address_ ca |})
              | Ok tcpAddr =>
                  (None, {| ID := id; Address_ := {| TCPAddr := tcpAddr |} |})
              end
          end).
Proof.
  assert (Hnone : forall text, occurrences "@" text = 0 ->
            ConsensusAddress_UnmarshalText net_ResolveTCPAddr PublicKey_UnmarshalHex ca text
              = (Some ErrConsensusAddressNoID, ca)).
  { intros text H. unfold ConsensusAddress_UnmarshalText, strings_Split.
    rewrite bool_decide_eq_false_2 by discriminate.
    now rewrite splitLoop_at_none by exact H. }
  assert (Hone : forall idText addrText,
            occurrences "@" idText = 0 -> occurrences "@" addrText = 0 ->
            ConsensusAddress_UnmarshalText net_ResolveTCPAddr PublicKey_UnmarshalHex ca
              (idText ++ String "@" addrText)
            = match PublicKey_UnmarshalHex (ID ca) idText with
              | (Some err, id) =>
                  (Some (fmt_Errorf_w errParseID err), {| ID := id; Address_ := Address_ ca |})
              | (None, id) =>
                  match net_ResolveTCPAddr EmptyString addrText with
                  | Err err =>
                      (Some (fmt_Errorf_w errParseTCP err),
                       {| ID := id; Address_ := Address_ ca |})
                  | Ok tcpAddr =>
                      (None, {| ID := id; Address_ := {| TCPAddr := tcpAddr |} |})
                  end
              end).
  { intros idText addrText Hi Ha. unfold ConsensusAddress_UnmarshalText, strings_Split.
    rewrite bool_decide_eq_false_2 by discriminate.
    rewrite splitLoop_at_one by assumption. rewrite ?append_nil.
    destruct (PublicKey_UnmarshalHex (ID ca) idText) as [[err |] id]; [reflexivity |].
    unfold Address_UnmarshalText.
    destruct (net_ResolveTCPAddr EmptyString addrText); reflexivity. }
  split; [| split; [exact Hnone | split; [exact occurrences_one | exact Hone]]].
  intros text. split.
  - intros Herr Hocc. destruct (occurrences_one _ Hocc) as (a & b & -> & Ha & Hb).
    rewrite Hone in Herr by assumption.
    destruct (PublicKey_UnmarshalHex (ID ca) a) as [[err |] id]; [discriminate |].
    destruct (net_ResolveTCPAddr EmptyString b); discriminate.
  - intros Hocc. unfold ConsensusAddress_UnmarshalText, strings_Split.
    rewrite bool_decide_eq_false_2 by discriminate.
    pose proof (splitLoop_at_length text EmptyString) as Hlen.
    destruct (splitLoop "@" 0 EmptyString text) as [| s0 [| s1 [| s2 spl]]];
      simpl in Hlen; try reflexivity.
    exfalso. apply Hocc. lia.
Qed.

End ConsensusAddressText.

End node_properties.

(** ** The replicated storage client *)
Module client_properties.
Import golang client.

Lemma dispatch_unreachable (peers : signature.PublicKey -> response)
    (members : list signature.PublicKey) :
  (forall m, m ∈ members -> unreachable (peers m)) ->
  dispatch peers members = None.
Proof.
  induction members as [| m members IH]; intros Hall; simpl.
  - reflexivity.
  - destruct (Hall m (list_elem_of_here _ _)) as [-> | ->];
      apply IH; intros m' Hm'; apply Hall; now apply list_elem_of_further.
Qed.

(** Notifications that the watcher discards leave the client as it is. *)
Lemma onCommittee_discarded (c : Client) (evs : list Committee) :
  Forall (fun ev => relevant c ev = false) evs ->
  foldl onCommittee c evs = c.
Proof.
  induction evs as [| ev evs IH]; intros Hall; simpl.
  - reflexivity.
  - apply Forall_cons in Hall as [Hev Hall].
    unfold onCommittee at 2. rewrite Hev. simpl. now apply IH.
Qed.

(** C4.  A read issued before any membership notification of the watched
    runtime's storage committee has arrived fails with
    [StorageNotAvailable].  Once a notification with a member list that is
    not empty has arrived, the client is [Ready] and connected to exactly
    those members, and a read with every member unreachable fails with
    [Unavailable], which is another failure than [StorageNotAvailable]. *)
Theorem SyncGet_not_available_then_unavailable
    (runtime : signature.PublicKey) (peers : signature.PublicKey -> response) :
  SyncGet New peers = inr StorageNotAvailable
  /\ (forall evs,
        Forall (fun ev => relevant (WatchRuntime New runtime) ev = false) evs ->
        SyncGet (foldl onCommittee (WatchRuntime New runtime) evs) peers
          = inr StorageNotAvailable)
  /\ (forall members,
        members <> [] ->
        (forall m, m ∈ members -> unreachable (peers m)) ->
        let c := onCommittee (WatchRuntime New runtime)
                   {| RuntimeID := runtime; CommitteeKind := KindStorage;
                      Members := members |} in
        state c = Ready
        /\ connections c = members
        /\ SyncGet c peers = inr Unavailable
        /\ SyncGet c peers <> inr StorageNotAvailable)
  /\ Unavailable <> StorageNotAvailable.
Proof.
  split; [reflexivity |]. split; [| split; [| discriminate]].
  - intros evs Hall. now rewrite onCommittee_discarded.
  - intros members Hne Hdown. unfold onCommittee, relevant. simpl.
    rewrite !bool_decide_eq_true_2 by reflexivity. simpl.
    destruct members as [| m members]; [now contradiction Hne |]. simpl.
    split; [reflexivity |]. split; [reflexivity |].
    unfold SyncGet. simpl.
    pose proof (dispatch_unreachable peers (m :: members) Hdown) as Hd.
    simpl in Hd. rewrite Hd. split; [reflexivity | discriminate].
Qed.

End client_properties.

(** * The properties at sample values *)
Module scenarios.
Import golang testing.

(** ** Package [block] *)

(** Each check of [VerifyStorageReceipt] can be made to fail on its own. *)
Example VerifyStorageReceipt_mismatches :
  let h := sampleHeader 7 None in
  block.VerifyStorageReceipt h (sampleReceipt sampleNamespace 7 (Some [ioRoot; stateRoot]))
    = Return None
  /\ block.VerifyStorageReceipt h (sampleReceipt otherNamespace 7 (Some [ioRoot; stateRoot]))
     = Return (Some block.errUnexpectedNamespace)
  /\ block.VerifyStorageReceipt h (sampleReceipt sampleNamespace 6 (Some [ioRoot; stateRoot]))
     = Return (Some block.errUnexpectedRound)
  /\ block.VerifyStorageReceipt h (sampleReceipt sampleNamespace 7 (Some [ioRoot]))
     = Return (Some block.errUnexpectedRootCount)
  /\ block.VerifyStorageReceipt h (sampleReceipt sampleNamespace 7 None)
     = Return (Some block.errUnexpectedRootCount)
  /\ block.VerifyStorageReceipt h (sampleReceipt sampleNamespace 7 (Some [stateRoot; ioRoot]))
     = Return (Some block.errUnexpectedRoots)
  /\ block.VerifyStorageReceipt h (sampleReceipt sampleNamespace 7 (Some [ioRoot; otherRoot]))
     = Return (Some block.errUnexpectedRoots).
Proof. vm_compute. repeat split. Qed.

(** A receipt of an earlier round is told from a receipt with other roots. *)
Lemma VerifyStorageReceipt_stale_or_corrupt :
  block.VerifyStorageReceipt (sampleHeader 7 None)
      (sampleReceipt sampleNamespace 6 (Some [ioRoot; stateRoot]))
    = Return (Some block.errUnexpectedRound)
  /\ block.VerifyStorageReceipt (sampleHeader 7 None)
       (sampleReceipt sampleNamespace 7 (Some [ioRoot; otherRoot]))
     = Return (Some block.errUnexpectedRoots).
Proof.
  split.
  - apply (block_properties.VerifyStorageReceipt_spec (sampleHeader 7 None)
             (sampleReceipt sampleNamespace 6 (Some [ioRoot; stateRoot]))).
    + reflexivity.
    + discriminate.
  - apply (block_properties.VerifyStorageReceipt_spec (sampleHeader 7 None)
             (sampleReceipt sampleNamespace 7 (Some [ioRoot; otherRoot]))).
    + reflexivity.
    + reflexivity.
    + reflexivity.
    + vm_compute. discriminate.
Defined.

(** Three signatures of which the second does not open: its error is
    returned and the third is not checked. *)
Lemma VerifyStorageReceiptSignatures_second_fails :
  block.VerifyStorageReceiptSignatures marshalBody openReceipt
      (sampleHeader 7 (Some [goodSignature 7 x01; badSignature x02; goodSignature 7 x03]))
    = (Some errVerifyFailed,
       [sampleSigned 7 (goodSignature 7 x01); sampleSigned 7 (badSignature x02)]).
Proof.
  apply (proj2 (block_properties.VerifyStorageReceiptSignatures_spec marshalBody openReceipt
                  (sampleHeader 7 (Some [goodSignature 7 x01; badSignature x02;
                                         goodSignature 7 x03])))
           [goodSignature 7 x01] (badSignature x02) [goodSignature 7 x03] errVerifyFailed).
  - reflexivity.
  - constructor; [vm_compute; reflexivity | constructor].
  - vm_compute. reflexivity.
Defined.

(** Headers without signatures, with a nil and with an empty list. *)
Lemma VerifyStorageReceiptSignatures_no_signatures :
  block.VerifyStorageReceiptSignatures marshalBody openReceipt (sampleHeader 7 None)
    = (None, [])
  /\ block.VerifyStorageReceiptSignatures marshalBody openReceipt (sampleHeader 7 (Some []))
     = (None, []).
Proof.
  split.
  - apply (block_properties.VerifyStorageReceiptSignatures_empty marshalBody openReceipt
             (sampleHeader 7 None)). reflexivity.
  - apply (block_properties.VerifyStorageReceiptSignatures_empty marshalBody openReceipt
             (sampleHeader 7 (Some []))). reflexivity.
Defined.




(** A header compared with itself, through one pointer, stays as it is. *)
Lemma MostlyEqual_keeps_arguments :
  exists b s',
    block.MostlyEqual marshalHeader digestPrefix (Some 0) (Some 0)
      [sampleHeader 7 (Some [goodSignature 7 x01])] = Return (b, s')
    /\ s' !! 0 = Some (sampleHeader 7 (Some [goodSignature 7 x01])).
Proof.
  destruct (block_properties.MostlyEqual_frame marshalHeader digestPrefix
              [sampleHeader 7 (Some [goodSignature 7 x01])]
              0 0 _ _ eq_refl eq_refl) as (b & s' & Hrun & Hh & _).
  exists b, s'. split; [exact Hrun | exact Hh].
Defined.

(** ** Package [node] *)

(** The consensus address of the specification's example parses to its
    identity and its address (the resolver holds an IPv4 address in the
    16-byte form). *)
Lemma ConsensusAddress_UnmarshalText_deadbeef :
  node.ConsensusAddress_UnmarshalText resolveLiteral unmarshalHex zeroConsensusAddress
      (deadbeef ++ "@127.0.0.1:26656")
    = (None,
       {| node.ID := deadbeefKey;
          node.Address_ :=
            {| node.TCPAddr :=
                 {| net.IP_ := net.IPv4 x7f x00 x00 x01;
                    net.Port := 26656;
                    net.Zone := EmptyString |} |} |})
  /\ node.ConsensusAddress_UnmarshalText resolveLiteral unmarshalHex zeroConsensusAddress
       "127.0.0.1:26656"
     = (Some node.ErrConsensusAddressNoID, zeroConsensusAddress).
Proof.
  split.
  - refine (eq_trans
              (proj2 (proj2 (proj2
                 (node_properties.ConsensusAddress_UnmarshalText_spec
                    resolveLiteral unmarshalHex zeroConsensusAddress)))
                 deadbeef "127.0.0.1:26656" eq_refl eq_refl) _).
    vm_compute. reflexivity.
  - apply (node_properties.ConsensusAddress_UnmarshalText_spec
             resolveLiteral unmarshalHex zeroConsensusAddress).
    reflexivity.
Defined.

(** A text that holds the identity segment, and a second [@] after the
    address, fails with the error of a missing identity: that error is not
    kept for texts without [@]. *)
Lemma ConsensusAddress_UnmarshalText_two_separators :
  (node.ConsensusAddress_UnmarshalText resolveLiteral unmarshalHex zeroConsensusAddress
     (deadbeef ++ "@127.0.0.1:26656@10.0.0.1:26656")).1
    = Some node.ErrConsensusAddressNoID
  /\ strings_Split (deadbeef ++ "@127.0.0.1:26656@10.0.0.1:26656") "@"
     = [deadbeef; "127.0.0.1:26656"; "10.0.0.1:26656"]
  /\ occurrences "@" (deadbeef ++ "@127.0.0.1:26656@10.0.0.1:26656") <> 0.
Proof. vm_compute. repeat split. discriminate. Qed.

(** An IPv4 address held in four bytes, without a zone, comes back as it
    was. *)
Lemma proto_roundtrip_ipv4 :
  exists pb,
    node.toProtoAddress (sampleAddress [x08; x08; x08; x08] 53 EmptyString) = Return pb
    /\ node.parseProtoAddress (Some pb)
       = Ok (sampleAddress [x08; x08; x08; x08] 53 EmptyString).
Proof.
  destruct (proj1 node_properties.proto_roundtrip
              (sampleAddress [x08; x08; x08; x08] 53 EmptyString))
    as (pb & a' & Hto & Hparse & _ & _ & _ & _ & _ & Hsame).
  - left. discriminate.
  - vm_compute. split; discriminate.
  - exists pb. split; [exact Hto |].
    rewrite Hparse. f_equal. apply Hsame; [reflexivity | left; reflexivity].
Defined.

(** Three addresses with a valid IP that do not come back as they were: a
    link-local IPv6 address with a zone comes back without it; a port wider
    than 16 bits is encoded and then refused; an IPv4 address held in
    sixteen bytes comes back in four. *)
Lemma proto_roundtrip_not_identity :
  (net.To16 (node.IP (sampleAddress
       [xfe; x80; x00; x00; x00; x00; x00; x00; x00; x00; x00; x00; x00; x00; x00; x01]
       80 "eth0")) <> None
   /\ exists pb a',
        node.toProtoAddress (sampleAddress
          [xfe; x80; x00; x00; x00; x00; x00; x00; x00; x00; x00; x00; x00; x00; x00; x01]
          80 "eth0") = Return pb
        /\ node.parseProtoAddress (Some pb) = Ok a'
        /\ node.Zone a' = EmptyString
        /\ a' <> sampleAddress
             [xfe; x80; x00; x00; x00; x00; x00; x00; x00; x00; x00; x00; x00; x00; x00; x01]
             80 "eth0")
  /\ (net.To4 (node.IP (sampleAddress [x08; x08; x08; x08] 70000 EmptyString)) <> None
      /\ exists pb,
           node.toProtoAddress (sampleAddress [x08; x08; x08; x08] 70000 EmptyString)
             = Return pb
           /\ node.parseProtoAddress (Some pb) = Err node.ErrInvalidAddress)
  /\ (net.To4 (node.IP (sampleAddress (net.v4InV6Prefix ++ [x08; x08; x08; x08]) 53
                          EmptyString)) <> None
      /\ exists pb a',
           node.toProtoAddress
             (sampleAddress (net.v4InV6Prefix ++ [x08; x08; x08; x08]) 53 EmptyString)
             = Return pb
           /\ node.parseProtoAddress (Some pb) = Ok a'
           /\ node.IP a' = Some [x08; x08; x08; x08]
           /\ a' <> sampleAddress (net.v4InV6Prefix ++ [x08; x08; x08; x08]) 53 EmptyString).
Proof.
  split; [| split].
  - split; [vm_compute; discriminate |].
    eexists _, _. split; [vm_compute; reflexivity |].
    split; [vm_compute; reflexivity |]. split; [reflexivity | discriminate].
  - split; [vm_compute; discriminate |].
    eexists. split; vm_compute; reflexivity.
  - split; [vm_compute; discriminate |].
    eexists _, _. split; [vm_compute; reflexivity |].
    split; [vm_compute; reflexivity |]. split; [reflexivity | discriminate].
Qed.

(** ** The replicated storage client *)

(** A committee of two members, both silent: the read fails with
    [Unavailable]; before the committee was known it failed with
    [StorageNotAvailable]. *)
Lemma SyncGet_two_silent_members :
  client.SyncGet (client.WatchRuntime client.New sampleRuntime) (fun _ => client.NoResponse)
    = inr client.StorageNotAvailable
  /\ client.SyncGet
       (client.onCommittee (client.WatchRuntime client.New sampleRuntime)
          {| client.RuntimeID := sampleRuntime;
             client.CommitteeKind := client.KindStorage;
             client.Members := sampleMembers |})
       (fun _ => client.NoResponse)
     = inr client.Unavailable.
Proof.
  pose proof (client_properties.SyncGet_not_available_then_unavailable
                sampleRuntime (fun _ => client.NoResponse)) as (_ & Hbefore & Hafter & _).
  split.
  - exact (Hbefore [] (List.Forall_nil _)).
  - apply Hafter.
    + discriminate.
    + intros m _. right. reflexivity.
Defined.

End scenarios.

(** * Further properties of the code *)

(** ** Package [block] *)
Module block_laws.
Import golang block comparisons.

Lemma Hash_Equal_sym (a b : hash.Hash) : hash.Hash_Equal a b = hash.Hash_Equal b a.
Proof.
  destruct (hash.Hash_Equal b a) eqn:E.
  - apply Hash_Equal_true in E. subst. now apply Hash_Equal_true.
  - apply Hash_Equal_false in E. apply Hash_Equal_false. congruence.
Qed.

Section Comparison.
Context {RoothashMessage : Type}.
Variable cbor_Marshal : Header RoothashMessage -> list byte.
Variable hash_FromBytes : list byte -> hash.Hash.
Implicit Types (h : Header RoothashMessage) (s t : heap RoothashMessage) (l : loc).

Abbreviation cleared h := (set_StorageSignatures (Some []) h).
Abbreviation digest h := (hash_FromBytes (cbor_Marshal h)).

(** [MostlyEqual] is an equivalence on the headers of a heap: every header
    is mostly equal to itself, the answer does not depend on which of the
    two headers is the receiver, and two headers mostly equal to a third
    are mostly equal. *)
Theorem MostlyEqual_equivalence s l1 l2 l3 h1 h2 h3 :
  s !! l1 = Some h1 ->
  s !! l2 = Some h2 ->
  s !! l3 = Some h3 ->
  (exists s', MostlyEqual cbor_Marshal hash_FromBytes (Some l1) (Some l1) s = Return (true, s'))
  /\ (forall b s',
        MostlyEqual cbor_Marshal hash_FromBytes (Some l1) (Some l2) s = Return (b, s') ->
        exists s'',
          MostlyEqual cbor_Marshal hash_FromBytes (Some l2) (Some l1) s = Return (b, s''))
  /\ ((exists s',
         MostlyEqual cbor_Marshal hash_FromBytes (Some l1) (Some l2) s = Return (true, s')) ->
      (exists s',
         MostlyEqual cbor_Marshal hash_FromBytes (Some l2) (Some l3) s = Return (true, s')) ->
      exists s',
        MostlyEqual cbor_Marshal hash_FromBytes (Some l1) (Some l3) s = Return (true, s')).
Proof.
  intros H1 H2 H3.
  pose proof (block_properties.MostlyEqual_run cbor_Marshal hash_FromBytes) as Hrun.
  split; [| split].
  - eexists. rewrite (Hrun s l1 l1 h1 h1) by assumption.
    f_equal. f_equal. now apply Hash_Equal_true.
  - intros b s'. rewrite (Hrun s l1 l2 h1 h2) by assumption. intros [= <- <-].
    eexists. rewrite (Hrun s l2 l1 h2 h1) by assumption.
    f_equal. f_equal. apply Hash_Equal_sym.
  - intros [s1 E12] [s2 E23].
    rewrite (Hrun s l1 l2 h1 h2) in E12 by assumption.
    rewrite (Hrun s l2 l3 h2 h3) in E23 by assumption.
    injection E12 as E12 _. injection E23 as E23 _.
    apply Hash_Equal_true in E12. apply Hash_Equal_true in E23.
    eexists. rewrite (Hrun s l1 l3 h1 h3) by assumption.
    f_equal. f_equal. apply Hash_Equal_true. congruence.
Qed.

(** [MostlyEqual] does not see the storage signatures: replacing the
    signature list of either header, by any list, leaves its answer as it
    was. *)
Theorem MostlyEqual_ignores_StorageSignatures s t l1 l2 l1' l2' h1 h2 sigs1 sigs2 :
  s !! l1 = Some h1 ->
  s !! l2 = Some h2 ->
  t !! l1' = Some (set_StorageSignatures sigs1 h1) ->
  t !! l2' = Some (set_StorageSignatures sigs2 h2) ->
  exists (b : bool) s' t',
    MostlyEqual cbor_Marshal hash_FromBytes (Some l1) (Some l2) s = Return (b, s')
    /\ MostlyEqual cbor_Marshal hash_FromBytes (Some l1') (Some l2') t = Return (b, t').
Proof.
  intros H1 H2 H1' H2'.
  pose proof (block_properties.MostlyEqual_run cbor_Marshal hash_FromBytes) as Hrun.
  eexists _, _, _. split.
  - apply Hrun; eassumption.
  - rewrite (Hrun t l1' l2' _ _ H1' H2'). reflexivity.
Qed.

(** [MostlyEqual] panics, with a nil dereference and nothing else, exactly
    when one of its two pointers is nil or refers to no header. *)
Theorem MostlyEqual_panics_iff s (h cmp : ptr) :
  (forall msg,
     MostlyEqual cbor_Marshal hash_FromBytes h cmp s = Panic msg -> msg = nilDereference)
  /\ (MostlyEqual cbor_Marshal hash_FromBytes h cmp s = Panic nilDereference <->
      ~ (exists l1 l2 h1 h2,
           h = Some l1 /\ cmp = Some l2 /\ s !! l1 = Some h1 /\ s !! l2 = Some h2)).
Proof.
  pose proof (block_properties.MostlyEqual_run cbor_Marshal hash_FromBytes s) as Hrun.
  destruct h as [l1 |], cmp as [l2 |].
  - destruct (s !! l1) as [h1 |] eqn:E1; [destruct (s !! l2) as [h2 |] eqn:E2 |].
    + rewrite (Hrun l1 l2 h1 h2 E1 E2). split; [discriminate |].
      split; [discriminate |]. intros N. exfalso. apply N. now exists l1, l2, h1, h2.
    + assert (E : MostlyEqual cbor_Marshal hash_FromBytes (Some l1) (Some l2) s
                  = Panic nilDereference).
      { unfold MostlyEqual, bind, deref. now rewrite E1, E2. }
      rewrite E. split; [now intros msg [= <-] |]. split; [| reflexivity].
      intros _ (l1' & l2' & h1' & h2' & _ & [= <-] & _ & E2'). congruence.
    + assert (E : MostlyEqual cbor_Marshal hash_FromBytes (Some l1) (Some l2) s
                  = Panic nilDereference).
      { unfold MostlyEqual, bind, deref. now rewrite E1. }
      rewrite E. split; [now intros msg [= <-] |]. split; [| reflexivity].
      intros _ (l1' & l2' & h1' & h2' & [= <-] & _ & E1' & _). congruence.
  - assert (E : MostlyEqual cbor_Marshal hash_FromBytes (Some l1) None s
                = Panic nilDereference).
    { unfold MostlyEqual, bind, deref. now destruct (s !! l1). }
    rewrite E. split; [now intros msg [= <-] |]. split; [| reflexivity].
    intros _ (l1' & l2' & h1' & h2' & _ & E' & _). discriminate.
  - split; [now intros msg [= <-] |]. split; [| reflexivity].
    intros _ (l1' & l2' & h1' & h2' & E' & _). discriminate.
  - split; [now intros msg [= <-] |]. split; [| reflexivity].
    intros _ (l1' & l2' & h1' & h2' & E' & _). discriminate.
Qed.

(** [h.IsParentOf(child)] reads both headers and writes nothing.  It
    answers [true] exactly when the previous hash of the receiver [h] is the
    encoded hash of the argument [child], the complete header with its
    storage signatures: a receiver whose previous hash is set to that hash
    is accepted, and of two arguments accepted by one receiver the encoded
    hashes are equal. *)
Theorem IsParentOf_spec s l lc lc' hv cv cv' :
  s !! l = Some hv ->
  s !! lc = Some cv ->
  s !! lc' = Some cv' ->
  exists b : bool,
    IsParentOf cbor_Marshal hash_FromBytes (Some l) (Some lc) s = Return (b, s)
    /\ (b = true <-> PreviousHash hv = digest cv)
    /\ (PreviousHash hv = digest cv ->
        IsParentOf cbor_Marshal hash_FromBytes (Some l) (Some lc) s = Return (true, s))
    /\ (b = true ->
        IsParentOf cbor_Marshal hash_FromBytes (Some l) (Some lc') s = Return (true, s) ->
        digest cv = digest cv').
Proof.
  intros Hh Hc Hc'.
  assert (Hrun : forall l2 v2, s !! l2 = Some v2 ->
            IsParentOf cbor_Marshal hash_FromBytes (Some l) (Some l2) s
            = Return (hash.Hash_Equal (PreviousHash hv) (digest v2), s)).
  { intros l2 v2 E2. unfold IsParentOf, EncodedHash, bind, deref, ret.
    now rewrite E2, Hh. }
  exists (hash.Hash_Equal (PreviousHash hv) (digest cv)).
  split; [now apply Hrun |]. split; [apply Hash_Equal_true |]. split.
  - intros E. rewrite (Hrun lc cv Hc). f_equal. f_equal. now apply Hash_Equal_true.
  - intros E. rewrite (Hrun lc' cv' Hc'). intros [= E'].
    apply Hash_Equal_true in E. apply Hash_Equal_true in E'. congruence.
Qed.


End Comparison.

Section Receipts.
Context {RoothashMessage : Type}.
Implicit Types (h : Header RoothashMessage) (b : storage.ReceiptBody).

(** [VerifyStorageReceipt] accepts the receipt body that the header itself
    derives for checking signatures, and does so whatever the version the
    body carries: the version of a receipt is never looked at. *)
Theorem VerifyStorageReceipt_accepts_derived_body h :
  VerifyStorageReceipt h (receiptBodyOf h) = Return None
  /\ (forall b (v : Z),
        VerifyStorageReceipt h
          {| storage.Version := v;
             storage.Namespace := storage.Namespace b;
             storage.Round := storage.Round b;
             storage.Roots := storage.Roots b |}
        = VerifyStorageReceipt h b).
Proof.
  split.
  - rewrite block_properties.VerifyStorageReceipt_cases. simpl.
    now repeat (rewrite bool_decide_eq_false_2 by tauto).
  - intros b v. now rewrite !block_properties.VerifyStorageReceipt_cases.
Qed.

(** A receipt pins the header fields it is checked against, and a header
    pins the receipt: one receipt accepted under two headers means the two
    agree in namespace, round, I/O root and state root, and two receipts
    accepted under one header agree in namespace, round and roots. *)
Theorem VerifyStorageReceipt_agreement :
  (forall h1 h2 b,
     VerifyStorageReceipt h1 b = Return None ->
     VerifyStorageReceipt h2 b = Return None ->
     Namespace h1 = Namespace h2 /\ Round h1 = Round h2
     /\ IORoot h1 = IORoot h2 /\ StateRoot h1 = StateRoot h2)
  /\ (forall h b1 b2,
        VerifyStorageReceipt h b1 = Return None ->
        VerifyStorageReceipt h b2 = Return None ->
        storage.Namespace b1 = storage.Namespace b2
        /\ storage.Round b1 = storage.Round b2
        /\ storage.Roots b1 = storage.Roots b2).
Proof.
  assert (Hok : forall h b, VerifyStorageReceipt h b = Return None ->
            storage.Namespace b = Namespace h /\ storage.Round b = Round h
            /\ storage.Roots b = Some [IORoot h; StateRoot h]).
  { intros h b. rewrite block_properties.VerifyStorageReceipt_cases.
    repeat case_bool_decide; try discriminate. intros _.
    repeat split; [now apply dec_stable .. ]. }
  split.
  - intros h1 h2 b E1 E2.
    destruct (Hok _ _ E1) as (N1 & R1 & T1). destruct (Hok _ _ E2) as (N2 & R2 & T2).
    rewrite T1 in T2. injection T2 as -> ->. repeat split; congruence.
  - intros h b1 b2 E1 E2.
    destruct (Hok _ _ E1) as (N1 & R1 & T1). destruct (Hok _ _ E2) as (N2 & R2 & T2).
    repeat split; congruence.
Qed.

End Receipts.

Section Signatures.
Context {RoothashMessage : Type}.
Variable ReceiptBody_MarshalCBOR : storage.ReceiptBody -> list byte.
Variable Receipt_Open : storage.Receipt -> option error.
Implicit Types (h : Header RoothashMessage) (sig : signature.Signature).

(** The loop returns the nil error exactly when every signature opens. *)
Lemma range_signatures_nil_iff (r : storage.Receipt) (sigs : list signature.Signature) :
  (range_signatures Receipt_Open r sigs).1 = None <->
  Forall (fun sig => Receipt_Open (set_Signature sig r) = None) sigs.
Proof.
  revert r. induction sigs as [| sig sigs IH]; intros r; simpl.
  - split; [constructor | reflexivity].
  - destruct (Receipt_Open (set_Signature sig r)) as [err |] eqn:E; simpl.
    + split; [discriminate |]. intros H. apply Forall_cons in H as [H _]. congruence.
    + specialize (IH (set_Signature sig r)).
      destruct (range_signatures Receipt_Open (set_Signature sig r) sigs) as [res opened].
      simpl in *. rewrite IH. split.
      * intros H. constructor; [exact E | exact H].
      * intros H. now apply Forall_cons in H as [_ H].
Qed.

(** An error of the loop is the error of [Open] on a signature of the list. *)
Lemma range_signatures_error (r : storage.Receipt) (sigs : list signature.Signature)
    (err : error) :
  (range_signatures Receipt_Open r sigs).1 = Some err ->
  exists sig, sig ∈ sigs /\ Receipt_Open (set_Signature sig r) = Some err.
Proof.
  revert r. induction sigs as [| sig sigs IH]; intros r; simpl.
  - discriminate.
  - destruct (Receipt_Open (set_Signature sig r)) as [err' |] eqn:E; simpl.
    + intros [= ->]. exists sig. split; [apply list_elem_of_here | exact E].
    + specialize (IH (set_Signature sig r)).
      destruct (range_signatures Receipt_Open (set_Signature sig r) sigs) as [res opened].
      simpl in *. intros H. destruct (IH H) as (sig' & Hin & Hopen).
      exists sig'. split; [now apply list_elem_of_further | exact Hopen].
Qed.

(** The loop hands to [Open] at most one receipt a signature, and one a
    signature when it returns the nil error. *)
Lemma range_signatures_count (r : storage.Receipt) (sigs : list signature.Signature) :
  length (range_signatures Receipt_Open r sigs).2 <= length sigs
  /\ ((range_signatures Receipt_Open r sigs).1 = None ->
      length (range_signatures Receipt_Open r sigs).2 = length sigs).
Proof.
  revert r. induction sigs as [| sig sigs IH]; intros r; simpl.
  - split; [lia | reflexivity].
  - destruct (Receipt_Open (set_Signature sig r)) as [err' |] eqn:E; simpl.
    + split; [lia | discriminate].
    + specialize (IH (set_Signature sig r)).
      destruct (range_signatures Receipt_Open (set_Signature sig r) sigs) as [res opened].
      simpl in *. destruct IH as [Hle Heq]. split; [lia |]. intros H. now rewrite Heq.
Qed.

(** [VerifyStorageReceiptSignatures] returns the nil error exactly when every
    signature of the header opens over the encoding of the derived receipt
    body, so that a list that passes still passes with signatures dropped,
    repeated or reordered.  An error it returns is the error of [Open] on
    one of the header's signatures, and it never calls [Open] more often
    than the header has signatures. *)
Theorem VerifyStorageReceiptSignatures_nil_iff h :
  ((VerifyStorageReceiptSignatures ReceiptBody_MarshalCBOR Receipt_Open h).1 = None <->
   Forall (fun sig =>
             Receipt_Open
               {| storage.Signed_ :=
                    {| storage.Blob := Some (ReceiptBody_MarshalCBOR (receiptBodyOf h));
                       storage.Signature := sig |} |} = None)
          (elements (StorageSignatures h)))
  /\ (forall sigs',
        (forall sig, sig ∈ sigs' -> sig ∈ elements (StorageSignatures h)) ->
        (VerifyStorageReceiptSignatures ReceiptBody_MarshalCBOR Receipt_Open h).1 = None ->
        (VerifyStorageReceiptSignatures ReceiptBody_MarshalCBOR Receipt_Open
           (set_StorageSignatures (Some sigs') h)).1 = None)
  /\ (forall err,
        (VerifyStorageReceiptSignatures ReceiptBody_MarshalCBOR Receipt_Open h).1 = Some err ->
        exists sig,
          sig ∈ elements (StorageSignatures h)
          /\ Receipt_Open
               {| storage.Signed_ :=
                    {| storage.Blob := Some (ReceiptBody_MarshalCBOR (receiptBodyOf h));
                       storage.Signature := sig |} |} = Some err)
  /\ length (VerifyStorageReceiptSignatures ReceiptBody_MarshalCBOR Receipt_Open h).2
     <= len (StorageSignatures h).
Proof.
  split; [| split; [| split]].
  - unfold VerifyStorageReceiptSignatures. apply range_signatures_nil_iff.
  - intros sigs' Hsub. unfold VerifyStorageReceiptSignatures.
    rewrite !range_signatures_nil_iff. simpl. rewrite !Forall_forall.
    intros Hall sig Hin. apply Hall. now apply Hsub.
  - intros err. unfold VerifyStorageReceiptSignatures. apply range_signatures_error.
  - unfold VerifyStorageReceiptSignatures.
    replace (len (StorageSignatures h)) with (length (elements (StorageSignatures h)))
      by now destruct (StorageSignatures h).
    apply range_signatures_count.
Qed.

End Signatures.

End block_laws.

(** ** Package [node] *)
Module node_laws.
Import golang node.

(** *** [To4], [To16] and [IP.Equal] by the length of the address *)

Lemma To4_len4 (ip : net.IP) : len ip = 4 -> net.To4 ip = ip.
Proof. unfold net.To4. now intros ->. Qed.

Lemma To16_len16 (ip : net.IP) : len ip = 16 -> net.To16 ip = ip.
Proof.
  unfold net.To16. destruct ip as [p |]; simpl; [| discriminate].
  intros H. do 17 (destruct p as [| ? p]; simpl in H; try discriminate). reflexivity.
Qed.

Lemma To4_To16_invalid (ip : net.IP) :
  len ip <> 4 -> len ip <> 16 -> net.To4 ip = None /\ net.To16 ip = None.
Proof.
  intros N4 N16. split.
  - unfold net.To4. apply Nat.eqb_neq in N4. apply Nat.eqb_neq in N16.
    unfold net.IPv4len, net.IPv6len. now rewrite N4, N16.
  - unfold net.To16. destruct ip as [p |]; [| reflexivity]. simpl in *.
    destruct p as [| a [| b [| c [| d [| e p]]]]]; simpl in *;
      try reflexivity; try (now contradiction N4).
    destruct (Nat.eqb_spec (length p) 11) as [E | N]; [| reflexivity].
    exfalso. apply N16. now rewrite E.
Qed.

Lemma IP_Equal_refl (ip : net.IP) : net.IP_Equal ip ip = true.
Proof.
  unfold net.IP_Equal. rewrite Nat.eqb_refl. now apply comparisons.bytes_Equal_true.
Qed.

Lemma IP_Equal_To4 (ip : net.IP) (x : list byte) :
  net.To4 ip = Some x -> net.IP_Equal (Some x) ip = true.
Proof.
  intros E. destruct (node_properties.To4_Some _ _ E) as [Hlen [-> | [Hl He]]].
  - apply IP_Equal_refl.
  - unfold net.IP_Equal. simpl. rewrite Hlen, Hl, He. simpl.
    now apply comparisons.bytes_Equal_true.
Qed.

(** A canonical address comes back from the binary form as it was. *)
Lemma canonical_roundtrip (a : Address) :
  canonical a ->
  exists pb, toProtoAddress a = Return pb /\ parseProtoAddress (Some pb) = Ok a.
Proof.
  destruct a as [[ip port zone]]. unfold canonical, IP, Port, Zone. simpl.
  intros (-> & Hport & Hip).
  unfold toProtoAddress, parseProtoAddress, IP, Port. simpl.
  destruct Hip as [H4 | [H16 HN]].
  - rewrite (To4_len4 _ H4). destruct ip as [p |]; [| discriminate]. simpl in H4.
    eexists. split; [reflexivity |]. simpl. rewrite H4. simpl.
    rewrite node_properties.uint32_small by exact Hport.
    destruct (Z.gtb_spec port MaxUint16); [lia | reflexivity].
  - rewrite HN, (To16_len16 _ H16). destruct ip as [p |]; [| discriminate]. simpl in H16.
    eexists. split; [reflexivity |]. simpl. rewrite H16. simpl.
    rewrite node_properties.uint32_small by exact Hport.
    destruct (Z.gtb_spec port MaxUint16); [lia | reflexivity].
Qed.

(** *** [FromIP] *)

(** [FromIP] accepts exactly the IPs of four and of sixteen bytes.  It then
    stores the port, clears the zone and stores the IP in canonical form:
    four bytes for an IPv4 address (also one held in sixteen), the sixteen
    bytes otherwise, an IP equal to the given one in the sense of
    [net.IP.Equal].  On any other IP it returns [ErrInvalidAddress] and
    leaves the address as it was. *)
Theorem FromIP_spec (a : Address) (ip : net.IP) (port : Z) :
  (len ip = 4 \/ len ip = 16 ->
   exists a',
     FromIP a ip port = (None, a')
     /\ Port a' = port
     /\ Zone a' = EmptyString
     /\ net.IP_Equal (IP a') ip = true
     /\ (len (IP a') = 4 \/ (len (IP a') = 16 /\ net.To4 (IP a') = None))
     /\ (net.To4 ip = None -> IP a' = ip))
  /\ (len ip <> 4 -> len ip <> 16 -> FromIP a ip port = (Some ErrInvalidAddress, a)).
Proof.
  split.
  - intros Hlen. unfold FromIP.
    destruct (net.To4 ip) as [x |] eqn:E4.
    + eexists. split; [reflexivity |]. unfold Port, Zone, IP. simpl.
      split; [reflexivity |]. split; [reflexivity |].
      split; [now apply IP_Equal_To4 |].
      split; [| discriminate].
      left. now destruct (node_properties.To4_Some _ _ E4) as [Hx _].
    + destruct Hlen as [H4 | H16].
      { rewrite (To4_len4 _ H4) in E4. subst ip. discriminate. }
      rewrite (To16_len16 _ H16). destruct ip as [p |]; [| discriminate].
      eexists. split; [reflexivity |]. unfold Port, Zone, IP. simpl.
      split; [reflexivity |]. split; [reflexivity |].
      split; [apply IP_Equal_refl |].
      split; [right; split; [exact H16 | exact E4] | reflexivity].
  - intros N4 N16. unfold FromIP.
    destruct (To4_To16_invalid ip N4 N16) as [-> ->]. reflexivity.
Qed.

(** An address built by [FromIP] with a port within 16 bits comes back from
    the binary form exactly as it was built. *)
Theorem FromIP_proto_roundtrip (a a' : Address) (ip : net.IP) (port : Z) :
  (0 <= port <= MaxUint16)%Z ->
  FromIP a ip port = (None, a') ->
  exists pb, toProtoAddress a' = Return pb /\ parseProtoAddress (Some pb) = Ok a'.
Proof.
  intros Hport Hfrom. apply canonical_roundtrip.
  unfold FromIP in Hfrom.
  destruct (net.To4 ip) as [x |] eqn:E4.
  - injection Hfrom as <-. unfold canonical, Zone, Port, IP. simpl.
    split; [reflexivity |]. split; [exact Hport |].
    left. now destruct (node_properties.To4_Some _ _ E4) as [Hx _].
  - destruct (net.To16 ip) as [x |] eqn:E16; [| discriminate].
    injection Hfrom as <-. unfold canonical, Zone, Port, IP. simpl.
    destruct (node_properties.To4_None_To16 _ _ E4 E16) as [-> Hx].
    split; [reflexivity |]. split; [exact Hport |].
    right. split; [exact Hx | exact E4].
Qed.

(** *** The binary form *)

(** An address comes back from the binary form exactly as it was if and
    only if it is canonical: it has no zone, its port lies within 16 bits,
    and its IP is held in four bytes or is a 16-byte address that is no
    IPv4 address. *)
Theorem proto_roundtrip_exact_iff (a : Address) :
  (exists pb, toProtoAddress a = Return pb /\ parseProtoAddress (Some pb) = Ok a)
  <-> canonical a.
Proof.
  split; [| apply canonical_roundtrip].
  destruct a as [[ip port zone]]. unfold canonical, IP, Port, Zone. simpl.
  intros (pb & Hto & Hparse). unfold toProtoAddress, IP, Port in Hto. simpl in Hto.
  assert (Hmod : (0 <= uint32 port < 2 ^ 32)%Z).
  { unfold uint32. apply Z.mod_pos_bound. lia. }
  destruct (net.To4 ip) as [x |] eqn:E4.
  - injection Hto as <-. unfold parseProtoAddress in Hparse. simpl in Hparse.
    destruct (node_properties.To4_Some _ _ E4) as [Hx _].
    rewrite Hx in Hparse. simpl in Hparse.
    destruct (Z.gtb_spec (uint32 port) MaxUint16) as [| Hle]; [discriminate |].
    injection Hparse as Hip Hp Hz. subst ip zone.
    split; [reflexivity |]. split; [lia |]. now left.
  - destruct (net.To16 ip) as [x |] eqn:E16; [| discriminate].
    injection Hto as <-. unfold parseProtoAddress in Hparse. simpl in Hparse.
    destruct (node_properties.To4_None_To16 _ _ E4 E16) as [-> Hx].
    rewrite Hx in Hparse. simpl in Hparse.
    destruct (Z.gtb_spec (uint32 port) MaxUint16) as [| Hle]; [discriminate |].
    injection Hparse as Hp Hz. subst zone.
    split; [reflexivity |]. split; [lia |]. right. split; [exact Hx | reflexivity].
Qed.

(** Every failure of [parseProtoAddress] is [ErrInvalidAddress]. *)
Lemma parseProtoAddress_Err (pb : option pbCommon.Address) (err : error) :
  parseProtoAddress pb = Err err -> err = ErrInvalidAddress.
Proof.
  unfold parseProtoAddress.
  destruct (pbCommon.GetTransport pb); try (now intros [= <-]);
    destruct (_ =? _)%nat; simpl; try (now intros [= <-]);
    destruct (_ >? _)%Z; try (now intros [= <-]); discriminate.
Qed.

(** [parseProtoAddress] succeeds exactly on a message of the 4-byte family
    with four bytes or of the 16-byte family with sixteen, whose port does
    not exceed 16 bits; the address then holds the raw bytes as they came,
    the port and no zone.  Every failure, the nil message included, is
    [ErrInvalidAddress]. *)
Theorem parseProtoAddress_Ok_iff (pb : option pbCommon.Address) :
  (forall a,
     parseProtoAddress pb = Ok a <->
     ((pbCommon.GetTransport pb = pbCommon.Address_TCPv4 /\ len (pbCommon.GetAddress pb) = 4)
      \/ (pbCommon.GetTransport pb = pbCommon.Address_TCPv6
          /\ len (pbCommon.GetAddress pb) = 16))
     /\ (pbCommon.GetPort pb <= MaxUint16)%Z
     /\ a = {| TCPAddr := {| net.IP_ := pbCommon.GetAddress pb;
                             net.Port := pbCommon.GetPort pb;
                             net.Zone := EmptyString |} |})
  /\ (forall err, parseProtoAddress pb = Err err -> err = ErrInvalidAddress)
  /\ parseProtoAddress None = Err ErrInvalidAddress.
Proof.
  split; [| split; [| reflexivity]].
  - intros a. unfold parseProtoAddress.
    destruct (pbCommon.GetTransport pb) as [| | tag].
    + destruct (Nat.eqb_spec (len (pbCommon.GetAddress pb)) 4) as [El | Nl]; simpl.
      * destruct (Z.gtb_spec (pbCommon.GetPort pb) MaxUint16) as [Hgt | Hle].
        -- split; [discriminate |]. intros (_ & Hp & _). lia.
        -- split.
           ++ intros [= <-]. split; [left; now split |]. split; [exact Hle | reflexivity].
           ++ now intros (_ & _ & ->).
      * split; [discriminate |].
        intros ([[_ El] | [Et _]] & _); [contradiction | discriminate].
    + destruct (Nat.eqb_spec (len (pbCommon.GetAddress pb)) 16) as [El | Nl]; simpl.
      * destruct (Z.gtb_spec (pbCommon.GetPort pb) MaxUint16) as [Hgt | Hle].
        -- split; [discriminate |]. intros (_ & Hp & _). lia.
        -- split.
           ++ intros [= <-]. split; [right; now split |]. split; [exact Hle | reflexivity].
           ++ now intros (_ & _ & ->).
      * split; [discriminate |].
        intros ([[Et _] | [_ El]] & _); [discriminate | contradiction].
    + split; [discriminate |]. intros ([[Et _] | [Et _]] & _); discriminate.
  - apply parseProtoAddress_Err.
Qed.

(** Decoding a message and encoding the address again gives the message
    back, except for a message of the 16-byte family that holds an IPv4
    address in sixteen bytes: that one is encoded again in the 4-byte
    family, with the last four bytes. *)
Theorem proto_decode_encode (pb : option pbCommon.Address) (a : Address) :
  parseProtoAddress pb = Ok a ->
  (0 <= pbCommon.GetPort pb)%Z ->
  exists m,
    pb = Some m
    /\ (pbCommon.Transport m = pbCommon.Address_TCPv4 \/ net.To4 (pbCommon.Address_ m) = None ->
        toProtoAddress a = Return m)
    /\ (forall x,
          pbCommon.Transport m = pbCommon.Address_TCPv6 ->
          net.To4 (pbCommon.Address_ m) = Some x ->
          toProtoAddress a
          = Return {| pbCommon.Transport := pbCommon.Address_TCPv4;
                      pbCommon.Address_ := Some x;
                      pbCommon.Port := pbCommon.Port m |}).
Proof.
  intros Hparse Hpos.
  destruct pb as [[transport raw port] |]; [| discriminate].
  eexists. split; [reflexivity |].
  unfold parseProtoAddress in Hparse. simpl in *.
  assert (Hok : exists n, (len raw =? n)%nat = true
                 /\ (transport = pbCommon.Address_TCPv4 /\ n = 4
                     \/ transport = pbCommon.Address_TCPv6 /\ n = 16)
                 /\ (port <= MaxUint16)%Z
                 /\ a = {| TCPAddr := {| net.IP_ := raw; net.Port := port;
                                         net.Zone := EmptyString |} |}).
  { destruct transport as [| | tag]; [exists 4 | exists 16 | discriminate];
      destruct (len raw =? _)%nat; simpl in Hparse; try discriminate;
      destruct (Z.gtb_spec port MaxUint16); try discriminate;
      injection Hparse as <-; (split; [reflexivity |]); (split; [tauto |]);
      (split; [lia | reflexivity]). }
  destruct Hok as (n & Hn & Ht & Hp & ->). apply Nat.eqb_eq in Hn.
  assert (Hu : uint32 port = port) by (apply node_properties.uint32_small; lia).
  unfold toProtoAddress, IP, Port. simpl. rewrite Hu.
  split.
  - intros Hform. destruct Ht as [[-> ->] | [-> ->]].
    + rewrite (To4_len4 _ Hn). destruct raw as [p |]; [reflexivity | discriminate].
    + destruct Hform as [Hf | Hf]; [discriminate |].
      rewrite Hf, (To16_len16 _ Hn). destruct raw as [p |]; [reflexivity | discriminate].
  - intros x -> Hx. now rewrite Hx.
Qed.

(** *** Lists of addresses in binary form *)

Lemma toProtoAddress_panics_iff (a : Address) :
  (exists msg, toProtoAddress a = Panic msg) <-> len (IP a) <> 4 /\ len (IP a) <> 16.
Proof.
  unfold toProtoAddress. split.
  - intros [msg H].
    destruct (net.To4 (IP a)) as [x |] eqn:E4; [discriminate |].
    destruct (net.To16 (IP a)) as [x |] eqn:E16; [discriminate |].
    split; intros Hl.
    + rewrite (To4_len4 _ Hl) in E4. rewrite E4 in Hl. discriminate.
    + rewrite (To16_len16 _ Hl) in E16. rewrite E16 in Hl. discriminate.
  - intros [N4 N16]. destruct (To4_To16_invalid _ N4 N16) as [-> ->]. now eexists.
Qed.

Lemma ToProtoAddresses_range_ok (addrs : list Address) (pbs : list pbCommon.Address)
    (acc : slice pbCommon.Address) :
  Forall2 (fun a pb => toProtoAddress a = Return pb) addrs pbs ->
  ToProtoAddresses_range addrs acc
  = Return (match addrs with [] => acc | _ => Some (elements acc ++ pbs) end).
Proof.
  intros H. revert acc. induction H as [| a pb addrs pbs Ha H IH]; intros acc; simpl.
  - reflexivity.
  - rewrite Ha, IH. f_equal. destruct addrs as [| a' addrs].
    + now inversion H.
    + simpl. now rewrite <- app_assoc.
Qed.

Lemma FromProtoAddresses_range_ok (pbs : list (option pbCommon.Address))
    (addrs acc : list Address) :
  Forall2 (fun pb a => parseProtoAddress pb = Ok a) pbs addrs ->
  FromProtoAddresses_range pbs acc = Ok (Some (acc ++ addrs)).
Proof.
  intros H. revert acc. induction H as [| pb a pbs addrs Ha H IH]; intros acc; simpl.
  - now rewrite app_nil_r.
  - rewrite Ha, IH. now rewrite <- app_assoc.
Qed.

(** What the decoding loop returns, whatever the messages. *)
Lemma FromProtoAddresses_range_result (pbs : list (option pbCommon.Address))
    (acc : list Address) :
  (exists addrs,
     Forall2 (fun pb a => parseProtoAddress pb = Ok a) pbs addrs
     /\ FromProtoAddresses_range pbs acc = Ok (Some (acc ++ addrs)))
  \/ (FromProtoAddresses_range pbs acc = Err ErrInvalidAddress
      /\ Exists (fun pb => parseProtoAddress pb = Err ErrInvalidAddress) pbs).
Proof.
  revert acc. induction pbs as [| pb pbs IH]; intros acc; simpl.
  - left. exists []. split; [constructor | now rewrite app_nil_r].
  - destruct (parseProtoAddress pb) as [a | err] eqn:E.
    + destruct (IH (acc ++ [a])) as [(addrs & Hall & Hres) | [Hres Hex]].
      * left. exists (a :: addrs). split; [now constructor |].
        rewrite Hres. now rewrite <- app_assoc.
      * right. split; [exact Hres | now apply Exists_cons_tl].
    + assert (err = ErrInvalidAddress) as ->
          by now apply (parseProtoAddress_Err pb).
      right. split; [reflexivity | now apply Exists_cons_hd].
Qed.

(** A list of canonical addresses comes back from the binary form as it
    was, element for element; the encoded list has the length of the list
    and is nil when the list is empty, and the decoded list is never nil. *)
Theorem ProtoAddresses_roundtrip (addrs : slice Address) :
  Forall canonical (elements addrs) ->
  exists pbs,
    ToProtoAddresses addrs = Return pbs
    /\ len pbs = len addrs
    /\ (len addrs = 0 -> pbs = None)
    /\ FromProtoAddresses (option_map (map Some) pbs) = Ok (Some (elements addrs)).
Proof.
  intros Hall.
  assert (Hpbs : exists pbs,
            Forall2 (fun a pb => toProtoAddress a = Return pb) (elements addrs) pbs
            /\ Forall2 (fun pb a => parseProtoAddress pb = Ok a) (Some <$> pbs)
                       (elements addrs)).
  { induction Hall as [| a l Ha Hall IH].
    - exists []. split; constructor.
    - destruct IH as (pbs & H1 & H2).
      destruct (canonical_roundtrip a Ha) as (pb & Hto & Hparse).
      exists (pb :: pbs). split; constructor; assumption. }
  destruct Hpbs as (pbs & Hto & Hfrom).
  unfold ToProtoAddresses, FromProtoAddresses.
  rewrite (ToProtoAddresses_range_ok _ _ _ Hto).
  assert (Hlen : length pbs = length (elements addrs)).
  { symmetry. eapply Forall2_length. exact Hto. }
  assert (Hl : len addrs = length (elements addrs)) by now destruct addrs.
  destruct (elements addrs) as [| a l] eqn:Ea.
  - exists None. split; [reflexivity |]. split; [now rewrite Hl |].
    split; reflexivity.
  - exists (Some pbs). split; [reflexivity |]. simpl.
    split; [now rewrite Hl |]. split; [rewrite Hl; discriminate |].
    change (map Some pbs) with (Some <$> pbs).
    now rewrite (FromProtoAddresses_range_ok _ _ _ Hfrom).
Qed.

(** [FromProtoAddresses] decodes every message or none: it returns a list,
    never nil, with one address a message, or [ErrInvalidAddress] when a
    message of the list does not decode.  [ToProtoAddresses] panics exactly
    when the IP of an address of the list has neither four nor sixteen
    bytes. *)
Theorem ProtoAddresses_results :
  (forall pbs : slice (option pbCommon.Address),
     (exists addrs,
        FromProtoAddresses pbs = Ok (Some addrs)
        /\ length addrs = len pbs
        /\ Forall2 (fun pb a => parseProtoAddress pb = Ok a) (elements pbs) addrs)
     \/ (FromProtoAddresses pbs = Err ErrInvalidAddress
         /\ Exists (fun pb => parseProtoAddress pb = Err ErrInvalidAddress) (elements pbs)))
  /\ (forall addrs : slice Address,
        (exists msg, ToProtoAddresses addrs = Panic msg) <->
        Exists (fun a => len (IP a) <> 4 /\ len (IP a) <> 16) (elements addrs)).
Proof.
  split.
  - intros pbs. unfold FromProtoAddresses.
    destruct (FromProtoAddresses_range_result (elements pbs) []) as
      [(addrs & Hall & Hres) | [Hres Hex]].
    + left. exists addrs. split; [exact Hres |]. split; [| exact Hall].
      apply Forall2_length in Hall. rewrite <- Hall. now destruct pbs.
    + right. now split.
  - intros addrs. unfold ToProtoAddresses. generalize (@None (list pbCommon.Address)).
    induction (elements addrs) as [| a l IH]; intros acc; simpl.
    + split; [intros [msg H]; discriminate | intros H; inversion H].
    + destruct (toProtoAddress a) as [pb | msg] eqn:E.
      * rewrite IH. split.
        -- intros H. now apply Exists_cons_tl.
        -- intros H. apply Exists_cons in H as [H | H]; [| exact H].
           apply toProtoAddress_panics_iff in H as [msg H]. congruence.
      * split.
        -- intros _. apply Exists_cons_hd.
           apply (proj1 (toProtoAddress_panics_iff a)). now exists msg.
        -- intros _. now exists msg.
Qed.

(** *** Routability *)

#[local] Arguments net.byte_and : simpl never.

(** [Contains] sees an IPv4 address through [To4]. *)
Lemma Contains_To4 (n : net.IPNet) (ip : net.IP) (x : list byte) :
  net.To4 ip = Some x -> net.Contains n ip = net.Contains n (Some x).
Proof.
  intros E. unfold net.Contains. destruct (net.networkNumberAndMask n) as [nn m].
  rewrite E. destruct (node_properties.To4_Some _ _ E) as [Hx _].
  now rewrite (To4_len4 (Some x) Hx).
Qed.

Lemma IsRoutable_range_To4 (nets : list net.IPNet) (ip : net.IP) (x : list byte) :
  net.To4 ip = Some x -> IsRoutable_range nets ip = IsRoutable_range nets (Some x).
Proof.
  intros E. induction nets as [| n nets IH]; simpl; [reflexivity |].
  now rewrite (Contains_To4 n ip x E), IH.
Qed.

Lemma To4_IPv4 (a b c d : byte) : net.To4 (net.IPv4 a b c d) = Some [a; b; c; d].
Proof. reflexivity. Qed.

(** [IsRoutable] looks at the IP only, and at an IPv4 address through its
    four bytes: the port and the zone do not matter, and an IPv4 address is
    classified alike in its 4-byte and in its 16-byte form. *)
Theorem IsRoutable_form_independent :
  (forall a a' : Address, IP a = IP a' -> IsRoutable a = IsRoutable a')
  /\ (forall (a b c d : byte) port zone port' zone',
        IsRoutable {| TCPAddr := {| net.IP_ := Some [a; b; c; d];
                                    net.Port := port; net.Zone := zone |} |}
        = IsRoutable {| TCPAddr := {| net.IP_ := net.IPv4 a b c d;
                                      net.Port := port'; net.Zone := zone' |} |}).
Proof.
  split.
  - intros a a' E. unfold IsRoutable. now rewrite E.
  - intros a b c d port zone port' zone'. unfold IsRoutable, IP. cbn [TCPAddr net.IP_].
    symmetry. apply IsRoutable_range_To4. apply To4_IPv4.
Qed.

(** The network number of every network of the table has four or sixteen
    bytes. *)
Lemma unroutableNetworks_wellformed :
  Forall (fun n => len (net.networkNumberAndMask n).1 = 4
                   \/ len (net.networkNumberAndMask n).1 = 16) unroutableNetworks.
Proof.
  rewrite node_properties.unroutableNetworks_table.
  repeat (constructor; [vm_compute; auto |]). constructor.
Qed.

(** [IsRoutable] does not validate the address: an address whose IP has
    neither four nor sixteen bytes, the nil IP included, lies in no network
    of the table and is classified routable. *)
Theorem IsRoutable_invalid_IP (a : Address) :
  len (IP a) <> 4 -> len (IP a) <> 16 -> IsRoutable a = true.
Proof.
  intros N4 N16. unfold IsRoutable.
  pose proof unroutableNetworks_wellformed as Hwf.
  induction Hwf as [| n nets Hn Hwf IH]; simpl; [reflexivity |].
  assert (Hc : net.Contains n (IP a) = false).
  { unfold net.Contains. destruct (net.networkNumberAndMask n) as [nn m]. simpl in Hn.
    destruct (To4_To16_invalid _ N4 N16) as [-> _].
    destruct (Nat.eqb_spec (len (IP a)) (len nn)) as [E | N]; [| reflexivity].
    exfalso. destruct Hn as [Hn | Hn]; rewrite Hn in E; contradiction. }
  now rewrite Hc.
Qed.

Lemma byte_and_zero_r (b : byte) : net.byte_and b x00 = x00.
Proof. destruct b; reflexivity. Qed.

(** Membership of a 4-byte address in a network given by four bytes and a
    4-byte mask. *)
Lemma Contains_v4 (n0 n1 n2 n3 m0 m1 m2 m3 a b c d : byte) :
  net.Contains {| net.NetIP := Some [n0; n1; n2; n3]; net.Mask := Some [m0; m1; m2; m3] |}
               (Some [a; b; c; d])
  = bool_decide (net.byte_and n0 m0 = net.byte_and a m0
                 /\ net.byte_and n1 m1 = net.byte_and b m1
                 /\ net.byte_and n2 m2 = net.byte_and c m2
                 /\ net.byte_and n3 m3 = net.byte_and d m3).
Proof.
  unfold net.Contains, net.networkNumberAndMask, net.To4. simpl.
  repeat case_bool_decide; try reflexivity; tauto.
Qed.

(** The private, loopback and link-local blocks are unroutable as a whole:
    every address of 10.0.0.0/8, 127.0.0.0/8, 169.254.0.0/16 and
    192.168.0.0/16, in the 4-byte or the 16-byte form, is classified
    unroutable. *)
Theorem IsRoutable_private_blocks (a : Address) (b c d : byte) :
  net.To4 (IP a) = Some [x0a; b; c; d]
  \/ net.To4 (IP a) = Some [x7f; b; c; d]
  \/ net.To4 (IP a) = Some [xa9; xfe; c; d]
  \/ net.To4 (IP a) = Some [xc0; xa8; c; d] ->
  IsRoutable a = false.
Proof.
  intros H. unfold IsRoutable.
  assert (Hin : forall ip i n,
            unroutableNetworks !! i = Some n -> net.Contains n ip = true ->
            IsRoutable_range unroutableNetworks ip = false).
  { intros ip i n Hi Hc. apply node_properties.IsRoutable_range_false.
    exists n. split; [now apply list_elem_of_lookup_2 with i | exact Hc]. }
  destruct H as [E | [E | [E | E]]]; rewrite (IsRoutable_range_To4 _ _ _ E).
  - apply (Hin _ 1 {| net.NetIP := Some [x0a; x00; x00; x00];
                      net.Mask := Some [xff; x00; x00; x00] |}); [reflexivity |].
    rewrite Contains_v4, !byte_and_zero_r. now apply bool_decide_eq_true_2.
  - apply (Hin _ 3 {| net.NetIP := Some [x7f; x00; x00; x00];
                      net.Mask := Some [xff; x00; x00; x00] |}); [reflexivity |].
    rewrite Contains_v4, !byte_and_zero_r. now apply bool_decide_eq_true_2.
  - apply (Hin _ 4 {| net.NetIP := Some [xa9; xfe; x00; x00];
                      net.Mask := Some [xff; xff; x00; x00] |}); [reflexivity |].
    rewrite Contains_v4, !byte_and_zero_r. now apply bool_decide_eq_true_2.
  - apply (Hin _ 9 {| net.NetIP := Some [xc0; xa8; x00; x00];
                      net.Mask := Some [xff; xff; x00; x00] |}); [reflexivity |].
    rewrite Contains_v4, !byte_and_zero_r. now apply bool_decide_eq_true_2.
Qed.

(** C7.  The eleventh literal of the reserved-block list is 192.18.0.0/15,
    under the comment that names the benchmarking block of RFC 2544; that
    block is 198.18.0.0/15, which the list does not hold.  So every
    address of 198.18.0.0/15, a reserved range, is classified routable,
    and every address of 192.18.0.0/15, which no reserved range covers, is
    classified unroutable: [IsRoutable] does not answer [false] exactly on
    the reserved ranges. *)
Theorem IsRoutable_benchmarking_block (c d : byte) port zone :
  reservedNets !! 10 = Some "192.18.0.0/15"%string
  /\ ~ In "198.18.0.0/15"%string reservedNets
  /\ IsRoutable {| TCPAddr := {| net.IP_ := Some [xc6; x12; c; d];
                                 net.Port := port; net.Zone := zone |} |} = true
  /\ IsRoutable {| TCPAddr := {| net.IP_ := Some [xc6; x13; c; d];
                                 net.Port := port; net.Zone := zone |} |} = true
  /\ IsRoutable {| TCPAddr := {| net.IP_ := Some [xc0; x12; c; d];
                                 net.Port := port; net.Zone := zone |} |} = false
  /\ IsRoutable {| TCPAddr := {| net.IP_ := Some [xc0; x13; c; d];
                                 net.Port := port; net.Zone := zone |} |} = false.
Proof.
  assert (Hin : forall ip,
            net.Contains {| net.NetIP := Some [xc0; x12; x00; x00];
                            net.Mask := Some [xff; xfe; x00; x00] |} ip = true ->
            IsRoutable_range unroutableNetworks ip = false).
  { intros ip Hc. apply node_properties.IsRoutable_range_false.
    eexists. split; [apply list_elem_of_lookup_2 with 10; reflexivity | exact Hc]. }
  split; [reflexivity |].
  split.
  { unfold reservedNets. simpl. intros Hel.
    repeat (destruct Hel as [Hel | Hel]; [discriminate |]). exact Hel. }
  unfold IsRoutable, IP. cbn [TCPAddr net.IP_].
  split; [| split; [| split]].
  - vm_compute. reflexivity.
  - vm_compute. reflexivity.
  - apply Hin. rewrite Contains_v4, !byte_and_zero_r. now apply bool_decide_eq_true_2.
  - apply Hin. rewrite Contains_v4, !byte_and_zero_r. now apply bool_decide_eq_true_2.
Qed.

(** *** The text form of a consensus address, out and back *)

Lemma occurrences_append (c : ascii) (a b : string) :
  occurrences c (a ++ b) = occurrences c a + occurrences c b.
Proof.
  induction a as [| c' a IH]; [reflexivity |].
  rewrite node_properties.append_cons. cbn [occurrences]. rewrite IH. lia.
Qed.

Section ConsensusAddressRoundTrip.
Variable net_ResolveTCPAddr : string -> string -> result net.TCPAddr.
Variable PublicKey_UnmarshalHex :
  signature.PublicKey -> string -> option error * signature.PublicKey.
Variable TCPAddr_String : net.TCPAddr -> string.
Variable PublicKey_String : signature.PublicKey -> string.

(** A text that does not hold exactly one [@] is refused, the receiver
    untouched. *)
Lemma UnmarshalText_not_one (ca : ConsensusAddress) (text : string) :
  occurrences "@" text <> 1 ->
  ConsensusAddress_UnmarshalText net_ResolveTCPAddr PublicKey_UnmarshalHex ca text
    = (Some ErrConsensusAddressNoID, ca).
Proof.
  intros Hocc. unfold ConsensusAddress_UnmarshalText, strings_Split.
  rewrite bool_decide_eq_false_2 by discriminate.
  pose proof (node_properties.splitLoop_at_length text EmptyString) as Hlen.
  destruct (splitLoop "@" 0 EmptyString text) as [| s0 [| s1 [| s2 spl]]];
    simpl in Hlen; try reflexivity.
  exfalso. apply Hocc. lia.
Qed.

(** [ConsensusAddress.MarshalText] never fails: it writes the identity, an
    [@] and the address.  [UnmarshalText] reads that text back to the same
    consensus address whenever neither part holds an [@] and each part
    reads back to what it was written from; when a part holds an [@] (a
    zone may), the text is refused with [ErrConsensusAddressNoID] and the
    receiver is left as it was. *)
Theorem ConsensusAddress_text_roundtrip (ca ca0 : ConsensusAddress) :
  exists text,
    ConsensusAddress_MarshalText TCPAddr_String PublicKey_String ca = Ok text
    /\ text = (PublicKey_String (ID ca) ++ String "@" (TCPAddr_String (TCPAddr (Address_ ca))))%string
    /\ 1 <= occurrences "@" text
    /\ (occurrences "@" (PublicKey_String (ID ca)) = 0 ->
        occurrences "@" (TCPAddr_String (TCPAddr (Address_ ca))) = 0 ->
        PublicKey_UnmarshalHex (ID ca0) (PublicKey_String (ID ca)) = (None, ID ca) ->
        net_ResolveTCPAddr EmptyString (TCPAddr_String (TCPAddr (Address_ ca)))
          = Ok (TCPAddr (Address_ ca)) ->
        ConsensusAddress_UnmarshalText net_ResolveTCPAddr PublicKey_UnmarshalHex ca0 text
          = (None, ca))
    /\ (occurrences "@" (PublicKey_String (ID ca))
        + occurrences "@" (TCPAddr_String (TCPAddr (Address_ ca))) <> 0 ->
        ConsensusAddress_UnmarshalText net_ResolveTCPAddr PublicKey_UnmarshalHex ca0 text
          = (Some ErrConsensusAddressNoID, ca0)).
Proof.
  eexists. split; [reflexivity |]. split; [reflexivity |].
  assert (Hocc : occurrences "@"
                   (PublicKey_String (ID ca)
                    ++ String "@" (TCPAddr_String (TCPAddr (Address_ ca))))
                 = occurrences "@" (PublicKey_String (ID ca)) + 1
                   + occurrences "@" (TCPAddr_String (TCPAddr (Address_ ca)))).
  { rewrite occurrences_append. cbn [occurrences].
    rewrite bool_decide_eq_true_2 by reflexivity. lia. }
  change (PublicKey_String (ID ca) ++ "@" ++ Address_String TCPAddr_String (Address_ ca))%string
    with (PublicKey_String (ID ca)
          ++ String "@" (TCPAddr_String (TCPAddr (Address_ ca))))%string.
  split; [rewrite Hocc; lia |]. split.
  - intros Hid Haddr Hhex Hres.
    unfold ConsensusAddress_UnmarshalText, strings_Split.
    rewrite bool_decide_eq_false_2 by discriminate.
    rewrite node_properties.splitLoop_at_one by assumption.
    rewrite ?node_properties.append_nil. rewrite Hhex.
    unfold Address_UnmarshalText. rewrite Hres.
    now destruct ca as [id [tcp]].
  - intros Hne. apply UnmarshalText_not_one. rewrite Hocc. lia.
Qed.

End ConsensusAddressRoundTrip.

(** *** Lists of consensus addresses in binary form *)
Section ProtoConsensus.
Variable PublicKey_MarshalBinary : signature.PublicKey -> slice byte * option error.
Variable PublicKey_UnmarshalBinary :
  signature.PublicKey -> slice byte -> option error * signature.PublicKey.

(** The consensus addresses whose identity reads back from its binary form
    and whose address is canonical. *)
Abbreviation reads_back ca :=
  (PublicKey_UnmarshalBinary (ID zeroConsensusAddress) (PublicKey_MarshalBinary (ID ca)).1
     = (None, ID ca)
   /\ canonical (Address_ ca)).

Lemma ToProtoConsensusAddresses_range_ok (addrs : list ConsensusAddress)
    (pbs : list pbCommon.ConsensusAddress) (acc : slice pbCommon.ConsensusAddress) :
  Forall2 (fun ca pb =>
             exists pbAddr,
               toProtoAddress (Address_ ca) = Return pbAddr
               /\ pb = {| pbCommon.Id := (PublicKey_MarshalBinary (ID ca)).1;
                          pbCommon.CAddress := Some pbAddr |}) addrs pbs ->
  ToProtoConsensusAddresses_range PublicKey_MarshalBinary addrs acc
  = Return (match addrs with [] => acc | _ => Some (elements acc ++ pbs) end).
Proof.
  intros H. revert acc. induction H as [| ca pb addrs pbs Hca H IH]; intros acc; simpl.
  - reflexivity.
  - destruct Hca as (pbAddr & Hto & ->). rewrite Hto, IH. f_equal.
    destruct addrs as [| ca' addrs].
    + now inversion H.
    + simpl. now rewrite <- app_assoc.
Qed.

Lemma FromProtoConsensusAddresses_range_ok (pbs : list (option pbCommon.ConsensusAddress))
    (addrs acc : list ConsensusAddress) :
  Forall2 (fun pb ca =>
             PublicKey_UnmarshalBinary (ID zeroConsensusAddress) (pbCommon.GetId pb)
               = (None, ID ca)
             /\ parseProtoAddress (pbCommon.GetCAddress pb) = Ok (Address_ ca)) pbs addrs ->
  FromProtoConsensusAddresses_range PublicKey_UnmarshalBinary pbs acc
  = Ok (Some (acc ++ addrs)).
Proof.
  intros H. revert acc.
  induction H as [| pb ca pbs addrs [Hid Haddr] H IH]; intros acc;
    cbn [FromProtoConsensusAddresses_range].
  - now rewrite app_nil_r.
  - rewrite Hid, Haddr, IH. rewrite <- app_assoc. now destruct ca.
Qed.

(** A list of consensus addresses whose identities read back from their
    binary form and whose addresses are canonical comes back from the
    binary form as it was.  In decoding, the identity of a message is read
    before its address: when the identity of the first message is
    refused, that error is returned whatever the address. *)
Theorem ProtoConsensusAddresses_roundtrip :
  (forall addrs : slice ConsensusAddress,
     Forall (fun ca => reads_back ca) (elements addrs) ->
     exists pbs,
       ToProtoConsensusAddresses PublicKey_MarshalBinary addrs = Return pbs
       /\ len pbs = len addrs
       /\ FromProtoConsensusAddresses PublicKey_UnmarshalBinary (option_map (map Some) pbs)
          = Ok (Some (elements addrs)))
  /\ (forall v rest err k,
        PublicKey_UnmarshalBinary (ID zeroConsensusAddress) (pbCommon.GetId v) = (Some err, k) ->
        FromProtoConsensusAddresses PublicKey_UnmarshalBinary (Some (v :: rest)) = Err err).
Proof.
  split.
  - intros addrs Hall.
    assert (Hpbs : exists pbs,
              Forall2 (fun ca pb =>
                         exists pbAddr,
                           toProtoAddress (Address_ ca) = Return pbAddr
                           /\ pb = {| pbCommon.Id := (PublicKey_MarshalBinary (ID ca)).1;
                                      pbCommon.CAddress := Some pbAddr |})
                      (elements addrs) pbs
              /\ Forall2 (fun pb ca =>
                            PublicKey_UnmarshalBinary (ID zeroConsensusAddress)
                              (pbCommon.GetId pb) = (None, ID ca)
                            /\ parseProtoAddress (pbCommon.GetCAddress pb)
                               = Ok (Address_ ca))
                         (Some <$> pbs) (elements addrs)).
    { induction Hall as [| ca l [Hid Hca] Hall IH].
      - exists []. split; constructor.
      - destruct IH as (pbs & H1 & H2).
        destruct (canonical_roundtrip _ Hca) as (pbAddr & Hto & Hparse).
        exists ({| pbCommon.Id := (PublicKey_MarshalBinary (ID ca)).1;
                   pbCommon.CAddress := Some pbAddr |} :: pbs).
        split; constructor; try assumption.
        + now exists pbAddr.
        + now split. }
    destruct Hpbs as (pbs & Hto & Hfrom).
    unfold ToProtoConsensusAddresses, FromProtoConsensusAddresses.
    rewrite (ToProtoConsensusAddresses_range_ok _ _ _ Hto).
    assert (Hlen : length pbs = length (elements addrs)).
    { symmetry. eapply Forall2_length. exact Hto. }
    assert (Hl : len addrs = length (elements addrs)) by now destruct addrs.
    destruct (elements addrs) as [| a l] eqn:Ea.
    + exists None. split; [reflexivity |]. split; [now rewrite Hl | reflexivity].
    + exists (Some pbs). split; [reflexivity |]. simpl.
      split; [now rewrite Hl |].
      change (map Some pbs) with (Some <$> pbs).
      now rewrite (FromProtoConsensusAddresses_range_ok _ _ _ Hfrom).
  - intros v rest err k H. unfold FromProtoConsensusAddresses.
    cbn [elements FromProtoConsensusAddresses_range]. now rewrite H.
Qed.

End ProtoConsensus.

End node_laws.

(** * The further properties at sample values *)
Module more_scenarios.
Import golang testing.

(** ** Package [block] *)

(** A header is mostly equal to itself, and to a copy with a signature. *)
Lemma MostlyEqual_reflexive_sample :
  exists s',
    block.MostlyEqual marshalHeader digestPrefix (Some 0) (Some 0)
      [sampleHeader 7 None; sampleHeader 7 (Some [goodSignature 7 x01]); sampleHeader 8 None]
    = Return (true, s').
Proof.
  exact (proj1 (block_laws.MostlyEqual_equivalence marshalHeader digestPrefix
                  [sampleHeader 7 None; sampleHeader 7 (Some [goodSignature 7 x01]);
                   sampleHeader 8 None]
                  0 1 2 _ _ _ eq_refl eq_refl eq_refl)).
Defined.

(** Headers of rounds 7 and 8 compare alike with and without signatures. *)
Lemma MostlyEqual_with_and_without_signatures :
  exists (b : bool) s' t',
    block.MostlyEqual marshalHeader digestPrefix (Some 0) (Some 1)
      [sampleHeader 7 None; sampleHeader 8 None] = Return (b, s')
    /\ block.MostlyEqual marshalHeader digestPrefix (Some 1) (Some 0)
         [sampleHeader 8 (Some [badSignature x02]); sampleHeader 7 (Some [goodSignature 7 x01])]
       = Return (b, t').
Proof.
  exact (block_laws.MostlyEqual_ignores_StorageSignatures marshalHeader digestPrefix
           [sampleHeader 7 None; sampleHeader 8 None]
           [sampleHeader 8 (Some [badSignature x02]);
            sampleHeader 7 (Some [goodSignature 7 x01])]
           0 1 1 0 (sampleHeader 7 None) (sampleHeader 8 None)
           (Some [goodSignature 7 x01]) (Some [badSignature x02])
           eq_refl eq_refl eq_refl eq_refl).
Defined.

(** The header that follows round 7 answers [true] when asked
    [IsParentOf] the header of round 7, and the heap stays as it was. *)
Lemma IsParentOf_successor :
  block.IsParentOf marshalHeader digestPrefix (Some 1) (Some 0)
    [sampleHeader 7 None; successorOf (sampleHeader 7 None)]
  = Return (true, [sampleHeader 7 None; successorOf (sampleHeader 7 None)]).
Proof.
  destruct (block_laws.IsParentOf_spec marshalHeader digestPrefix
              [sampleHeader 7 None; successorOf (sampleHeader 7 None)]
              1 0 0 _ _ _ eq_refl eq_refl eq_refl) as (b & _ & _ & Hset & _).
  apply Hset. reflexivity.
Defined.

(** ** Package [node] *)

(** Decides that a sample address is canonical. *)
Ltac canonical_sample :=
  split; [reflexivity
         | split; [vm_compute; split; discriminate
                  | first [left; reflexivity | right; split; reflexivity]]].

(** An IPv4 address given in sixteen bytes to [FromIP] comes back from the
    binary form as [FromIP] stored it. *)
Lemma FromIP_then_binary :
  exists a' pb,
    node.FromIP (sampleAddress [] 0 "eth0") (net.IPv4 x08 x08 x08 x08) 53 = (None, a')
    /\ node.toProtoAddress a' = Return pb
    /\ node.parseProtoAddress (Some pb) = Ok a'.
Proof.
  destruct (node_laws.FromIP_proto_roundtrip (sampleAddress [] 0 "eth0")
              (sampleAddress [x08; x08; x08; x08] 53 EmptyString)
              (net.IPv4 x08 x08 x08 x08) 53) as (pb & Hto & Hparse).
  - vm_compute. split; discriminate.
  - reflexivity.
  - exists (sampleAddress [x08; x08; x08; x08] 53 EmptyString), pb.
    split; [reflexivity | split; assumption].
Defined.

(** A message of the 4-byte family is encoded again as it was decoded. *)
Lemma proto_decode_encode_ipv4 :
  node.toProtoAddress (sampleAddress [x08; x08; x08; x08] 53 EmptyString)
  = Return {| pbCommon.Transport := pbCommon.Address_TCPv4;
              pbCommon.Address_ := Some [x08; x08; x08; x08];
              pbCommon.Port := 53 |}.
Proof.
  destruct (node_laws.proto_decode_encode
              (Some {| pbCommon.Transport := pbCommon.Address_TCPv4;
                       pbCommon.Address_ := Some [x08; x08; x08; x08];
                       pbCommon.Port := 53 |})
              (sampleAddress [x08; x08; x08; x08] 53 EmptyString))
    as (m & Hm & Hsame & _).
  - reflexivity.
  - vm_compute. discriminate.
  - injection Hm as <-. apply Hsame. now left.
Defined.

(** A list of two canonical addresses, one of each family. *)
Lemma ProtoAddresses_roundtrip_sample :
  exists pbs,
    node.ToProtoAddresses
      (Some [sampleAddress [x08; x08; x08; x08] 53 EmptyString;
             sampleAddress
               [x20; x01; x48; x60; x48; x60; x00; x00; x00; x00; x00; x00; x00; x00; x88; x88]
               443 EmptyString]) = Return pbs
    /\ node.FromProtoAddresses (option_map (map Some) pbs)
       = Ok (Some [sampleAddress [x08; x08; x08; x08] 53 EmptyString;
                   sampleAddress
                     [x20; x01; x48; x60; x48; x60; x00; x00; x00; x00; x00; x00; x00; x00;
                      x88; x88]
                     443 EmptyString]).
Proof.
  destruct (node_laws.ProtoAddresses_roundtrip
              (Some [sampleAddress [x08; x08; x08; x08] 53 EmptyString;
                     sampleAddress
                       [x20; x01; x48; x60; x48; x60; x00; x00; x00; x00; x00; x00; x00; x00;
                        x88; x88]
                       443 EmptyString])) as (pbs & Hto & _ & _ & Hfrom).
  - constructor; [canonical_sample |]. constructor; [canonical_sample |]. constructor.
  - exists pbs. split; assumption.
Defined.

(** The address without an IP is classified routable. *)
Lemma IsRoutable_nil_IP :
  node.IsRoutable
    {| node.TCPAddr := {| net.IP_ := None; net.Port := 0; net.Zone := EmptyString |} |}
  = true.
Proof.
  apply (node_laws.IsRoutable_invalid_IP
           {| node.TCPAddr := {| net.IP_ := None; net.Port := 0; net.Zone := EmptyString |} |});
    discriminate.
Defined.

(** 10.255.255.255, held in sixteen bytes, is unroutable. *)
Lemma IsRoutable_private_sample :
  node.IsRoutable
    {| node.TCPAddr := {| net.IP_ := net.IPv4 x0a xff xff xff;
                          net.Port := 26656; net.Zone := EmptyString |} |}
  = false.
Proof.
  apply (node_laws.IsRoutable_private_blocks
           {| node.TCPAddr := {| net.IP_ := net.IPv4 x0a xff xff xff;
                                 net.Port := 26656; net.Zone := EmptyString |} |}
           xff xff xff).
  left. reflexivity.
Defined.

(** The consensus address of the specification's example, written and read
    back. *)
Lemma ConsensusAddress_text_roundtrip_deadbeef :
  node.ConsensusAddress_MarshalText tcpAddrString publicKeyString deadbeefAddress
    = Ok (deadbeef ++ "@127.0.0.1:26656")%string
  /\ node.ConsensusAddress_UnmarshalText resolveLiteral unmarshalHex zeroConsensusAddress
       (deadbeef ++ "@127.0.0.1:26656")
     = (None, deadbeefAddress).
Proof.
  destruct (node_laws.ConsensusAddress_text_roundtrip resolveLiteral unmarshalHex
              tcpAddrString publicKeyString deadbeefAddress zeroConsensusAddress)
    as (text & Hout & Htext & _ & Hback & _).
  assert (E : text = (deadbeef ++ "@127.0.0.1:26656")%string).
  { rewrite Htext. vm_compute. reflexivity. }
  split.
  - rewrite Hout. now rewrite E.
  - rewrite <- E. apply Hback; vm_compute; reflexivity.
Defined.

(** A list with the consensus address of the example, through the binary
    form. *)
Lemma ProtoConsensusAddresses_roundtrip_deadbeef :
  exists pbs,
    node.ToProtoConsensusAddresses marshalBinary
      (Some [{| node.ID := deadbeefKey;
                node.Address_ := sampleAddress [x7f; x00; x00; x01] 26656 EmptyString |}])
    = Return pbs
    /\ node.FromProtoConsensusAddresses unmarshalBinary (option_map (map Some) pbs)
       = Ok (Some [{| node.ID := deadbeefKey;
                      node.Address_ :=
                        sampleAddress [x7f; x00; x00; x01] 26656 EmptyString |}]).
Proof.
  destruct (proj1 (node_laws.ProtoConsensusAddresses_roundtrip marshalBinary unmarshalBinary)
              (Some [{| node.ID := deadbeefKey;
                        node.Address_ :=
                          sampleAddress [x7f; x00; x00; x01] 26656 EmptyString |}]))
    as (pbs & Hto & _ & Hfrom).
  - constructor; [| constructor]. split; [vm_compute; reflexivity | canonical_sample].
  - exists pbs. split; assumption.
Defined.

End more_scenarios.
